(** * Bugland: the [Bug] sprite and its transforms (src/bugland/bug.py)

    A shallow embedding of the class [Bug] and of the part of numpy it
    uses, followed by the properties of its transforms.

    Modelling conventions.
    - Sizes, angles and arguments are integers of [Z], and memory is not
      a limit.  A Python 2 [int] is a machine word: the ints of a nested
      list given to the constructor lie in the int64 range and numpy
      stores them as int64, element type [Int] (a larger integer is a
      [long], which numpy stores otherwise; it is outside this model).
    - A float64 array, element type [Float], keeps for each cell the
      integer its float denotes: [1.0] is stored as [1].  Storing an
      int64 into a float64 array rounds it to the nearest float64
      ([float64_of_int]), which changes integers above 2^53.
    - numpy is the numpy of Python 2 (the source iterates with [xrange]):
      a nested list whose rows differ in length becomes a
      one-dimensional array of row objects, without an exception.
    - Exceptions are values of [exn]; a call that may raise returns
      [res]. *)

From stdpp Require Import base numbers list strings.
From Equations Require Import Equations.
From Stdlib Require Import ZArith Lia.

Local Open Scope Z_scope.

(** ** Exceptions *)

Inductive exn : Set := TypeError | ValueError | IndexError.

Inductive res (A : Type) : Type :=
| Ok (a : A)
| Err (e : exn).
Arguments Ok {A} a.
Arguments Err {A} e.

#[global] Instance res_ret : MRet res := fun A a => Ok a.
#[global] Instance res_bind : MBind res := fun A B f m =>
  match m with
  | Ok a => f a
  | Err e => Err e
  end.

Definition succeeds {A} (m : res A) : Prop := exists a, m = Ok a.
Definition raises {A} (m : res A) : Prop := exists e, m = Err e.

(** ** numpy arrays *)

(** Element type of a numeric array: [numpy.zeros] and [numpy.ones]
    produce [Float] unless told otherwise, a list of Python ints
    converts to [Int]. *)
Inductive dtype : Set := Int | Float.

(** The [shape] tuple of the arrays that occur: one or two axes. *)
Inductive shape_t : Set :=
| Sh1 (n : Z)
| Sh2 (r c : Z).

(** An array is numeric with one axis, an object array of Python row
    lists (what a ragged nested list converts to), or numeric with two
    axes; the latter records its shape, since an array with no row
    still has a column count. *)
Inductive ndarray : Type :=
| Arr1 (dt : dtype) (items : list Z)
| ArrObj (items : list (list Z))
| Arr2 (dt : dtype) (nrows ncols : nat) (cells : list (list Z)).

Definition shape (a : ndarray) : shape_t :=
  match a with
  | Arr1 _ items => Sh1 (Z.of_nat (length items))
  | ArrObj items => Sh1 (Z.of_nat (length items))
  | Arr2 _ r c _ => Sh2 (Z.of_nat r) (Z.of_nat c)
  end.

(** [s[k]] for a shape tuple. *)
Definition shape_get (s : shape_t) (k : nat) : res Z :=
  match s, k with
  | Sh1 n, O => Ok n
  | Sh2 r _, O => Ok r
  | Sh2 _ c, S O => Ok c
  | _, _ => Err IndexError
  end.

(** [r, c = s]: unpacking a tuple of the wrong length is a ValueError. *)
Definition unpack2 (s : shape_t) : res (Z * Z) :=
  match s with
  | Sh2 r c => Ok (r, c)
  | Sh1 _ => Err ValueError
  end.

(** [a[r][c]] on the rows of a two-axis array. *)
Definition cell (cells : list (list Z)) (r c : nat) : option Z :=
  match cells !! r with
  | Some row => row !! c
  | None => None
  end.

(** Stored rows agree with the recorded shape. *)
Definition rect (nrows ncols : nat) (cells : list (list Z)) : Prop :=
  length cells = nrows /\ Forall (fun row => length row = ncols) cells.

(** What the caller hands to [numpy.array]: a nested Python list of ints
    (Python 2 [int]s, so within the int64 range) or an existing array. *)
Inductive array_like : Type :=
| AList (rows : list (list Z))
| AArr (a : ndarray).

Definition same_length (n : nat) (rows : list (list Z)) : bool :=
  forallb (fun row => Nat.eqb (length row) n) rows.

(** [numpy.array(x)].  An existing array is copied.  A nested list of
    [int]s with rows of one length becomes a two-axis int64 array
    ([Float] when there is nothing to take the type from); the empty
    list has one axis; rows of differing length give an object array. *)
Definition numpy_array (x : array_like) : res ndarray :=
  match x with
  | AArr a => Ok a
  | AList [] => Ok (Arr1 Float [])
  | AList (row :: rows) =>
      let n := length row in
      if same_length n rows
      then Ok (Arr2 (if Nat.eqb n 0 then Float else Int)
                    (S (length rows)) n (row :: rows))
      else Ok (ArrObj (row :: rows))
  end.

(** [numpy.zeros(shape, dtype)] and [numpy.ones(shape)]: a negative
    dimension is a ValueError. *)
Definition numpy_full (v : Z) (s : shape_t) (dt : dtype) : res ndarray :=
  match s with
  | Sh1 n =>
      if n <? 0 then Err ValueError
      else Ok (Arr1 dt (replicate (Z.to_nat n) v))
  | Sh2 r c =>
      if (r <? 0) || (c <? 0) then Err ValueError
      else Ok (Arr2 dt (Z.to_nat r) (Z.to_nat c)
                    (replicate (Z.to_nat r) (replicate (Z.to_nat c) v)))
  end.

Definition numpy_zeros := numpy_full 0.
Definition numpy_ones (s : shape_t) := numpy_full 1 s Float.

(** [a[:, ::-1]]: two indices on a one-axis array are an IndexError. *)
Definition flip_cols (a : ndarray) : res ndarray :=
  match a with
  | Arr2 dt r c cells => Ok (Arr2 dt r c (reverse <$> cells))
  | _ => Err IndexError
  end.

(** [a[::-1]] *)
Definition flip_rows (a : ndarray) : ndarray :=
  match a with
  | Arr1 dt items => Arr1 dt (reverse items)
  | ArrObj items => ArrObj (reverse items)
  | Arr2 dt r c cells => Arr2 dt r c (reverse cells)
  end.

(** [a.T]: the identity on one axis. *)
Definition column (c : nat) (cells : list (list Z)) : list Z :=
  (fun row => default 0 (row !! c)) <$> cells.

Definition transpose (a : ndarray) : ndarray :=
  match a with
  | Arr2 dt r c cells => Arr2 dt c r ((fun k => column k cells) <$> seq 0 c)
  | _ => a
  end.

(** *** Slices *)

(** The indices selected by [start:stop:step] on an axis of length
    [len], as CPython adjusts them. *)
Definition adjust (len step k : Z) : Z :=
  if k <? 0 then
    if k + len <? 0 then (if step <? 0 then -1 else 0) else k + len
  else if len <=? k then (if step <? 0 then len - 1 else len)
  else k.

Definition slice_count (a b step : Z) : Z :=
  if step <? 0 then (if b <? a then (a - b - 1) / (- step) + 1 else 0)
  else (if a <? b then (b - a - 1) / step + 1 else 0).

Definition slice_indices (len start stop step : Z) : res (list nat) :=
  if step =? 0 then Err ValueError
  else
    let a := adjust len step start in
    let b := adjust len step stop in
    Ok ((fun k => Z.to_nat (a + Z.of_nat k * step))
          <$> seq 0 (Z.to_nat (slice_count a b step))).

(** Position of [i] in a list of selected indices. *)
Fixpoint index_of (i : nat) (idx : list nat) : option nat :=
  match idx with
  | [] => None
  | j :: idx' => if Nat.eqb i j then Some O else S <$> index_of i idx'
  end.

(** Broadcasting: a source axis of length 1 is repeated. *)
Definition bcast_ok (src_len sel_len : nat) : bool :=
  Nat.eqb src_len sel_len || Nat.eqb src_len 1.
Definition bcast (src_len k : nat) : nat :=
  if Nat.eqb src_len 1 then O else k.

(** The element-wise update [dst[ridx, cidx] op= src] on rows. *)
Definition update_rows (f : Z -> Z -> Z) (dst : list (list Z))
    (ridx cidx : list nat) (sr sc : nat) (src : list (list Z)) :
    list (list Z) :=
  imap (fun r row =>
    match index_of r ridx with
    | None => row
    | Some k =>
        imap (fun c v =>
          match index_of c cidx with
          | None => v
          | Some l =>
              match cell src (bcast sr k) (bcast sc l) with
              | Some s => f v s
              | None => v
              end
          end) row
    end) dst.

(** [dst[r0:r1:rstep, c0:c1:cstep] op= src] for two-axis arrays, after
    the check [types_ok] on the element types. *)
Definition update_slice (types_ok : dtype -> dtype -> bool)
    (f : Z -> Z -> Z) (dst : ndarray) (rs cs : Z * Z * Z)
    (src : ndarray) : res ndarray :=
  match dst, src with
  | Arr2 ddt dr dc dcells, Arr2 sdt sr sc scells =>
      let '(r0, r1, rstep) := rs in
      let '(c0, c1, cstep) := cs in
      ridx ← slice_indices (Z.of_nat dr) r0 r1 rstep;
      cidx ← slice_indices (Z.of_nat dc) c0 c1 cstep;
      if negb (types_ok ddt sdt) then Err TypeError
      else if negb (bcast_ok sr (length ridx) && bcast_ok sc (length cidx))
      then Err ValueError
      else Ok (Arr2 ddt dr dc (update_rows f dcells ridx cidx sr sc scells))
  | Arr2 _ _ _ _, _ => Err ValueError
  | _, _ => Err IndexError
  end.

(** The float64 nearest to an integer, ties to the even mantissa: an
    integer below 2^53 in magnitude is kept, a larger one keeps its 53
    leading bits.  (An int64 is far below the largest float64.) *)
Definition float64_of_int (z : Z) : Z :=
  let a := Z.abs z in
  if a <? 2 ^ 53 then z
  else
    let e := Z.log2 a - 52 in
    let q := a / 2 ^ e in
    let r := a mod 2 ^ e in
    let half := 2 ^ (e - 1) in
    let q' := if r <? half then q
              else if half <? r then q + 1
              else if Z.even q then q else q + 1 in
    Z.sgn z * (q' * 2 ^ e).

(** The value stored when an element of type [src] is written into an
    array of element type [dst]: an int64 written into a float64 array
    is rounded; the floats of this model denote integers, so the other
    conversions keep the value. *)
Definition stored (src dst : dtype) (v : Z) : Z :=
  match src, dst with
  | Int, Float => float64_of_int v
  | _, _ => v
  end.

(** [dst[...] = src]: any numeric value is stored, converted to the
    element type of [dst]. *)
Definition assign_slice (dst : ndarray) (rs cs : Z * Z * Z)
    (src : ndarray) : res ndarray :=
  match dst, src with
  | Arr2 ddt _ _ _, Arr2 sdt _ _ _ =>
      update_slice (fun _ _ => true) (fun _ s => stored sdt ddt s)
                   dst rs cs src
  | _, _ => update_slice (fun _ _ => true) (fun _ s => s) dst rs cs src
  end.

(** [dst[...] |= src]: bitwise or exists for integer operands only. *)
Definition both_int (d s : dtype) : bool :=
  match d, s with
  | Int, Int => true
  | _, _ => false
  end.
Definition ior_slice := update_slice both_int Z.lor.

(** *** Loops *)

Definition xrange (n : Z) : list Z := seqZ 0 n.

(** [for x in xs: s = body(x, s)], stopping at the first exception. *)
Fixpoint for_each {S X : Type} (xs : list X) (body : X -> S -> res S)
    (s : S) : res S :=
  match xs with
  | [] => Ok s
  | x :: xs' =>
      match body x s with
      | Ok s' => for_each xs' body s'
      | Err e => Err e
      end
  end.

(** ** The class Bug *)

Record Bug : Type := mkBug {
  name : string;
  patch : ndarray;
  mask : ndarray
}.

(** [Bug.__init__(name, patch, mask = None)] *)
Definition Bug_init (name : string) (patch : array_like)
    (mask : option array_like) : res Bug :=
  p ← numpy_array patch;
  match mask with
  | None => Ok (mkBug name p p)
  | Some mask => m ← numpy_array mask; Ok (mkBug name p m)
  end.

(** [Bug.hflip] *)
Definition hflip (self : Bug) : res Bug :=
  p ← flip_cols (patch self);
  m ← flip_cols (mask self);
  Bug_init (name self) (AArr p) (Some (AArr m)).

(** [Bug.vflip] *)
Definition vflip (self : Bug) : res Bug :=
  Bug_init (name self) (AArr (flip_rows (patch self)))
           (Some (AArr (flip_rows (mask self)))).

Definition valid_angle (a : Z) : bool :=
  (a =? 0) || (a =? 90) || (a =? 180) || (a =? 270).

(** [Bug.rotate].  An angle that passed the first test and is neither 0
    nor 90 is 180 or 270, so the last test of the source,
    [angle >= 180], holds whenever it is reached
    ([valid_angle_ge_180]); the call on [angle - 180] is on a smaller
    reduced angle. *)
Equations? rotate (self : Bug) (angle : Z) : res Bug
    by wf (Z.to_nat (angle mod 360)) lt :=
  rotate self angle with Logic.inspect (valid_angle (angle mod 360)) := {
    | exist _ false _ => Err ValueError
    | exist _ true Hvalid with Logic.inspect (angle mod 360 =? 0) := {
      | exist _ true _ => Ok self
      | exist _ false H0 with Logic.inspect (angle mod 360 =? 90) := {
        | exist _ true _ =>
            b ← Bug_init (name self) (AArr (transpose (patch self)))
                         (Some (AArr (transpose (mask self))));
            hflip b
        | exist _ false H90 with hflip self := {
          | Err e => Err e
          | Ok b1 with vflip b1 := {
            | Err e => Err e
            | Ok b2 => rotate b2 (angle mod 360 - 180) } } } } }.
Proof.
  unfold valid_angle in Hvalid.
  assert (angle mod 360 = 180 \/ angle mod 360 = 270) as [E | E] by lia;
    rewrite E; vm_compute; lia.
Qed.

(** Arguments that need not be ints: [VOther] stands for any object
    that is not an instance of [int] (a float, a string, [None]). *)
Inductive pyval : Type :=
| VInt (z : Z)
| VOther.

(** The body of the two loops of [Bug.scale] for the offsets [i], [j]. *)
Definition scale_step (self : Bug) (prows pcols mrows mcols x y i j : Z)
    (st : ndarray * ndarray) : res (ndarray * ndarray) :=
  let '(patch', mask') := st in
  patch' ← assign_slice patch' (i, prows * y, y) (j, pcols * x, x)
                        (patch self);
  mask' ← assign_slice mask' (i, mrows * y, y) (j, mcols * x, x)
                       (mask self);
  Ok (patch', mask').

(** [Bug.scale(xscale, yscale = None)] *)
Definition scale (self : Bug) (xscale : pyval) (yscale : option pyval) :
    res Bug :=
  let yscale := default xscale yscale in
  match xscale, yscale with
  | VInt x, VInt y =>
      '(prows, pcols) ← unpack2 (shape (patch self));
      '(mrows, mcols) ← unpack2 (shape (mask self));
      patch' ← numpy_zeros (Sh2 (prows * y) (pcols * x)) Float;
      mask' ← numpy_zeros (Sh2 (mrows * y) (mcols * x)) Float;
      '(patch', mask') ←
        for_each (xrange y) (fun i =>
          for_each (xrange x)
            (scale_step self prows pcols mrows mcols x y i))
          (patch', mask');
      Bug_init (name self) (AArr patch') (Some (AArr mask'))
  | _, _ => Err TypeError
  end.

(** [Bug.margin(margin)] *)
Definition margin (self : Bug) (margin : Z) : res Bug :=
  r0 ← shape_get (shape (patch self)) 0;
  c0 ← shape_get (shape (patch self)) 1;
  let mr := r0 + margin * 2 in
  let mc := c0 + margin * 2 in
  mask' ← numpy_zeros (Sh2 mr mc) Int;
  let m := margin * 2 + 1 in
  mask' ←
    for_each (xrange m) (fun i =>
      for_each (xrange m) (fun j mask' =>
        ior_slice mask' (i, mr - m + 1 + i, 1) (j, mc - m + 1 + j, 1)
                  (patch self)))
      mask';
  Bug_init (name self) (AArr (patch self)) (Some (AArr mask')).

(** [Bug.total_mask] *)
Definition total_mask (self : Bug) : res Bug :=
  ones ← numpy_ones (shape (mask self));
  Bug_init (name self) (AArr (patch self)) (Some (AArr ones)).

(** [Bug.fit_mask] *)
Definition fit_mask (self : Bug) : res Bug :=
  Bug_init (name self) (AArr (patch self)) (Some (AArr (patch self))).

(** The properties [h], [w], [mh], [mw], [marginh], [marginw]; [/] on
    Python 2 ints rounds down. *)
Definition h (self : Bug) : res Z := shape_get (shape (patch self)) 0.
Definition w (self : Bug) : res Z := shape_get (shape (patch self)) 1.
Definition mh (self : Bug) : res Z := shape_get (shape (mask self)) 0.
Definition mw (self : Bug) : res Z := shape_get (shape (mask self)) 1.
Definition marginh (self : Bug) : res Z :=
  a ← mh self; b ← h self; Ok ((a - b) / 2).
Definition marginw (self : Bug) : res Z :=
  a ← mw self; b ← w self; Ok ((a - b) / 2).

(** ** The data model *)

(** The data model's arrays: two axes, rows as long as the shape says,
    no negative value.  The element type is left open. *)
Definition nonneg (cells : list (list Z)) : Prop :=
  forall (r c : nat) (v : Z), cell cells r c = Some v -> 0 <= v.

Definition grid (a : ndarray) : Prop :=
  exists dt (R C : nat) cells,
    a = Arr2 dt R C cells /\ rect R C cells /\ nonneg cells.

Definition grids (b : Bug) : Prop := grid (patch b) /\ grid (mask b).

Definition dtype_of (a : ndarray) : option dtype :=
  match a with
  | Arr1 dt _ => Some dt
  | ArrObj _ => None
  | Arr2 dt _ _ _ => Some dt
  end.

(** How [numpy.array] stores a nested list: rows of one length [n] as
    a two-axis array of shape (number of rows, n), rows of differing
    length as a one-axis array of row objects. *)
Definition stored_as (rows : list (list Z)) (a : ndarray) : Prop :=
  (forall n, rows <> [] -> Forall (fun row => length row = n) rows ->
     exists dt, a = Arr2 dt (length rows) n rows /\ rect (length rows) n rows)
  /\ ((~ exists n, Forall (fun row => length row = n) rows) ->
      a = ArrObj rows /\ shape a = Sh1 (Z.of_nat (length rows))).

(** ** Auxiliary notions for the proofs *)

(** All pairs visited by two nested loops, in order. *)
Definition pairs {X Y} (xs : list X) (ys : list Y) : list (X * Y) :=
  xs ≫= fun x => (fun y => (x, y)) <$> ys.

(** The indices [a, a + step, ...] of a slice with [n] elements. *)
Definition prog (a step : Z) (n : nat) : list nat :=
  (fun k => Z.to_nat (a + Z.of_nat k * step)) <$> seq 0 n.

(** The cells of an array of element type [sdt] as a float64 array
    stores them. *)
Definition as_float64 (sdt : dtype) (cells : list (list Z)) :
    list (list Z) :=
  (fun row : list Z => stored sdt Float <$> row) <$> cells.

(** The cells a float64 holds exactly: at most 2^53 in magnitude. *)
Definition float64_exact (cells : list (list Z)) : Prop :=
  forall (r c : nat) (v : Z), cell cells r c = Some v -> Z.abs v <= 2 ^ 53.

(** Loop invariant of [scale]: [arr] is the target of shape
    [(R*y, C*x)], and every cell whose offsets inside its block are
    among those [done] holds the value of its block; [src] are the
    source cells as float64. *)
Definition scaled_on (x y : Z) (src : list (list Z)) (R C : nat)
    (done : list (Z * Z)) (arr : ndarray) : Prop :=
  exists cells,
    arr = Arr2 Float (Z.to_nat (Z.of_nat R * y)) (Z.to_nat (Z.of_nat C * x))
               cells
    /\ rect (Z.to_nat (Z.of_nat R * y)) (Z.to_nat (Z.of_nat C * x)) cells
    /\ forall r c : nat,
         Z.of_nat r < Z.of_nat R * y -> Z.of_nat c < Z.of_nat C * x ->
         (Z.of_nat r mod y, Z.of_nat c mod x) ∈ done ->
         cell cells r c = cell src (Z.to_nat (Z.of_nat r / y))
                                   (Z.to_nat (Z.of_nat c / x)).

(** Loop invariant of [margin]: [arr] is the mask of shape
    [(R + 2m, C + 2m)], a cell is occupied exactly when one of the
    offsets [done] puts an occupied pattern cell on it, and no cell is
    negative unless a pattern cell is. *)
Definition dilated_on (m : Z) (src : list (list Z)) (R C : nat)
    (done : list (Z * Z)) (arr : ndarray) : Prop :=
  exists cells,
    arr = Arr2 Int (Z.to_nat (Z.of_nat R + m * 2))
               (Z.to_nat (Z.of_nat C + m * 2)) cells
    /\ rect (Z.to_nat (Z.of_nat R + m * 2)) (Z.to_nat (Z.of_nat C + m * 2))
            cells
    /\ forall (r c : nat) (v : Z),
         cell cells r c = Some v ->
         (nonneg src -> 0 <= v)
         /\ (v <> 0 <->
             exists (i j : Z) (pr pc : nat) (pv : Z),
               (i, j) ∈ done
               /\ Z.of_nat r = i + Z.of_nat pr /\ Z.of_nat c = j + Z.of_nat pc
               /\ cell src pr pc = Some pv /\ pv <> 0).

(** ** Sample values *)

Definition corner_rows : list (list Z) := [[1; 0]; [0; 0]].
Definition ragged_rows : list (list Z) := [[1; 2]; [3]].
Definition full_rows : list (list Z) := [[1; 1]; [1; 1]].

(** [Bug("corner", [[1, 0], [0, 0]])] *)
Definition corner : Bug :=
  mkBug "corner" (Arr2 Int 2 2 corner_rows) (Arr2 Int 2 2 corner_rows).

(** [Bug("dot", [[1]])] *)
Definition dot : Bug := mkBug "dot" (Arr2 Int 1 1 [[1]]) (Arr2 Int 1 1 [[1]]).

(** [Bug("full", [[1, 1], [1, 1]])] *)
Definition full : Bug :=
  mkBug "full" (Arr2 Int 2 2 full_rows) (Arr2 Int 2 2 full_rows).

(** [Bug("hollow", [[]])]: one row without cells, which numpy types
    float64; the shape is (1, 0). *)
Definition hollow : Bug :=
  mkBug "hollow" (Arr2 Float 1 0 [[]]) (Arr2 Float 1 0 [[]]).

(** [Bug("wide", [[2**53 + 1]])]: an [int] that no float64 holds. *)
Definition wide_rows : list (list Z) := [[2 ^ 53 + 1]].
Definition wide : Bug :=
  mkBug "wide" (Arr2 Int 1 1 wide_rows) (Arr2 Int 1 1 wide_rows).

(** ** Rendering *)

(** ['x' if x else ' '] *)
Definition pixel (x : Z) : string := if x =? 0 then " " else "x".

(** [' '.join('x' if x else ' ' for x in row)] *)
Definition render_row (row : list Z) : string :=
  String.concat " " (pixel <$> row).

(** The string holding the line feed, character 10. *)
Definition newline : string :=
  String (Ascii.Ascii false true false true false false false false)
         EmptyString.

(** [Bug.__str__].  The rows of a two-axis array and of an object array
    are iterated over; an item of a numeric one-axis array is a number,
    which cannot be iterated over. *)
Definition Bug_str (self : Bug) : res string :=
  match patch self with
  | Arr2 _ _ _ cells | ArrObj cells =>
      Ok (String.append (name self)
            (String.append newline
               (String.concat newline (render_row <$> cells))))
  | Arr1 _ [] =>
      Ok (String.append (name self)
            (String.append newline (String.concat newline [])))
  | Arr1 _ (_ :: _) => Err TypeError
  end.

(** ** Shapes of Bugs *)

(** A two-axis array whose rows agree with its shape. *)
Definition rect_array (a : ndarray) : Prop :=
  exists dt (R C : nat) cells, a = Arr2 dt R C cells /\ rect R C cells.

Definition rect_bug (b : Bug) : Prop :=
  rect_array (patch b) /\ rect_array (mask b).

(** An array with one axis: what the empty list and a ragged list
    convert to. *)
Definition one_axis (a : ndarray) : Prop :=
  match a with
  | Arr2 _ _ _ _ => False
  | _ => True
  end.

(** [n] quarter turns: [rotate(90)] applied [n] times. *)
Fixpoint quarter_turns (n : nat) (b : Bug) : res Bug :=
  match n with
  | O => Ok b
  | S n' => rotate b 90 ≫= quarter_turns n'
  end.

(** ** Quarter turns of the cells *)

(** The rows after [a.T[:, ::-1]]. *)
Definition turn_cells (C : nat) (cells : list (list Z)) : list (list Z) :=
  reverse <$> ((fun k => column k cells) <$> seq 0 C).

Definition turn (a : ndarray) : ndarray :=
  match a with
  | Arr2 dt R C cells => Arr2 dt C R (turn_cells C cells)
  | _ => a
  end.

(** The body of [rotate] for an angle already reduced modulo 360. *)
Definition rotate_body (self : Bug) (a : Z) : res Bug :=
  if negb (valid_angle a) then Err ValueError
  else if a =? 0 then Ok self
  else if a =? 90 then
    b ← Bug_init (name self) (AArr (transpose (patch self)))
                 (Some (AArr (transpose (mask self))));
    hflip b
  else
    b1 ← hflip self; b2 ← vflip b1; rotate b2 (a - 180).

(** ** What [margin] stores *)

(** The pattern cell that the offset (i, j) puts on the mask cell
    (r, c), or 0 when the shifted pattern does not reach that cell. *)
Definition shifted (src : list (list Z)) (r c : nat) (p : Z * Z) : Z :=
  let pr := Z.of_nat r - p.1 in
  let pc := Z.of_nat c - p.2 in
  if (0 <=? pr) && (0 <=? pc)
  then default 0 (cell src (Z.to_nat pr) (Z.to_nat pc))
  else 0.

(** The bitwise or of the pattern cells that the offsets put on (r, c). *)
Definition window_or (src : list (list Z)) (r c : nat)
    (offsets : list (Z * Z)) : Z :=
  foldl (fun acc p => Z.lor acc (shifted src r c p)) 0 offsets.

(** Loop invariant of [margin] for the values: each mask cell holds the
    or of what the offsets [done] put on it. *)
Definition exact_on (m : Z) (src : list (list Z)) (R C : nat)
    (done : list (Z * Z)) (arr : ndarray) : Prop :=
  exists cells,
    arr = Arr2 Int (Z.to_nat (Z.of_nat R + m * 2))
               (Z.to_nat (Z.of_nat C + m * 2)) cells
    /\ rect (Z.to_nat (Z.of_nat R + m * 2)) (Z.to_nat (Z.of_nat C + m * 2))
            cells
    /\ forall (r c : nat) (v : Z),
         cell cells r c = Some v -> v = window_or src r c done.

(** A pattern of zeros and ones, as the class documents it. *)
Definition binary (cells : list (list Z)) : Prop :=
  forall (r c : nat) (v : Z), cell cells r c = Some v -> v = 0 \/ v = 1.

(** A pattern cell equal to 1 lies within Chebyshev distance [m] of the
    centred position of the mask cell (r, c). *)
Definition near (m : Z) (cells : list (list Z)) (r c : nat) : Prop :=
  exists pr pc : nat,
    cell cells pr pc = Some 1
    /\ Z.max (Z.abs (Z.of_nat r - m - Z.of_nat pr))
             (Z.abs (Z.of_nat c - m - Z.of_nat pc)) <= m.

(** * Properties *)

(** ** The sample Bugs, and the margins worked out by hand *)

Example corner_constructed :
  Bug_init "corner" (AList corner_rows) None = Ok corner.
Proof. reflexivity. Qed.

Example dot_constructed : Bug_init "dot" (AList [[1]]) None = Ok dot.
Proof. reflexivity. Qed.

Example full_constructed : Bug_init "full" (AList full_rows) None = Ok full.
Proof. reflexivity. Qed.

Example margin_dot :
  margin dot 1
  = Ok (mkBug "dot" (Arr2 Int 1 1 [[1]])
          (Arr2 Int 3 3 [[1; 1; 1]; [1; 1; 1]; [1; 1; 1]])).
Proof. vm_compute. reflexivity. Qed.

Example margin_corner :
  margin corner 1
  = Ok (mkBug "corner" (Arr2 Int 2 2 corner_rows)
          (Arr2 Int 4 4
             [[1; 1; 1; 0]; [1; 1; 1; 0]; [1; 1; 1; 0]; [0; 0; 0; 0]])).
Proof. vm_compute. reflexivity. Qed.

Example scale_corner :
  scale corner (VInt 2) (Some (VInt 1))
  = Ok (mkBug "corner" (Arr2 Float 2 4 [[1; 1; 0; 0]; [0; 0; 0; 0]])
          (Arr2 Float 2 4 [[1; 1; 0; 0]; [0; 0; 0; 0]])).
Proof. vm_compute. reflexivity. Qed.

Example rotate_corner_90 :
  rotate corner 90
  = Ok (mkBug "corner" (Arr2 Int 2 2 [[0; 1]; [0; 0]])
          (Arr2 Int 2 2 [[0; 1]; [0; 0]])).
Proof. vm_compute. reflexivity. Qed.

Example rotate_corner_45 : rotate corner 45 = Err ValueError.
Proof. vm_compute. reflexivity. Qed.

(** ** The error monad and loops *)

Lemma for_each_app {S X} (xs ys : list X) (body : X -> S -> res S) s :
  for_each (xs ++ ys) body s = for_each xs body s ≫= for_each ys body.
Proof.
  revert s. induction xs as [|x xs IH]; intros s; simpl; [reflexivity|].
  destruct (body x s) as [s'|e]; [apply IH | reflexivity].
Qed.

(** A loop whose body keeps an invariant, indexed by the items already
    processed, runs to its end and establishes it for all items. *)
Lemma for_each_inv {S X} (I : list X -> S -> Prop)
    (body : X -> S -> res S) (xs : list X) :
  (forall pre x s, x ∈ xs -> I pre s ->
     exists s', body x s = Ok s' /\ I (pre ++ [x]) s') ->
  forall s, I [] s -> exists s', for_each xs body s = Ok s' /\ I xs s'.
Proof.
  intros Hstep.
  assert (forall post pre s, (forall x, x ∈ post -> x ∈ xs) -> I pre s ->
            exists s', for_each post body s = Ok s' /\ I (pre ++ post) s')
    as Hgen.
  { induction post as [|x post IH]; intros pre s Hin HI.
    - exists s. rewrite app_nil_r. auto.
    - destruct (Hstep pre x s) as (s1 & Hb & HI1); [apply Hin; left | auto |].
      destruct (IH (pre ++ [x]) s1) as (s2 & Hf & HI2).
      + intros z Hz. apply Hin. right. exact Hz.
      + exact HI1.
      + exists s2. simpl. rewrite Hb. split; [exact Hf|].
        rewrite <- app_assoc in HI2. exact HI2. }
  intros s HI. apply (Hgen xs [] s); auto.
Qed.

Lemma elem_of_pairs {X Y} (xs : list X) (ys : list Y) x y :
  (x, y) ∈ pairs xs ys <-> x ∈ xs /\ y ∈ ys.
Proof.
  unfold pairs. rewrite list_elem_of_bind. split.
  - intros (x' & Hin & Hx). apply list_elem_of_fmap in Hin as (y' & E & Hy).
    inversion E; subst. auto.
  - intros [Hx Hy]. exists x. split; [|exact Hx].
    apply list_elem_of_fmap. eauto.
Qed.

Lemma for_each_fmap {S X Y} (f : Y -> X) (ys : list Y)
    (body : X -> S -> res S) s :
  for_each (f <$> ys) body s = for_each ys (fun y => body (f y)) s.
Proof.
  revert s. induction ys as [|y ys IH]; intros s; csimpl; [reflexivity|].
  destruct (body (f y) s); [apply IH | reflexivity].
Qed.

Lemma for_each_pairs {S X Y} (xs : list X) (ys : list Y)
    (body : X -> Y -> S -> res S) s :
  for_each xs (fun x => for_each ys (body x)) s
  = for_each (pairs xs ys) (fun p => body p.1 p.2) s.
Proof.
  revert s. induction xs as [|x xs IH]; intros s; [reflexivity|].
  change (pairs (x :: xs) ys) with (((fun y => (x, y)) <$> ys) ++ pairs xs ys).
  rewrite for_each_app, for_each_fmap. simpl.
  destruct (for_each ys _ s); [apply IH | reflexivity].
Qed.

Lemma nested_inv {S X Y} (I : list (X * Y) -> S -> Prop)
    (body : X -> Y -> S -> res S) (xs : list X) (ys : list Y) :
  (forall pre x y s, x ∈ xs -> y ∈ ys -> I pre s ->
     exists s', body x y s = Ok s' /\ I (pre ++ [(x, y)]) s') ->
  forall s, I [] s ->
  exists s', for_each xs (fun x => for_each ys (body x)) s = Ok s'
             /\ I (pairs xs ys) s'.
Proof.
  intros Hstep s HI. rewrite for_each_pairs.
  apply for_each_inv; [|exact HI].
  intros pre [x y] t Hin Ht. apply elem_of_pairs in Hin as [Hx Hy].
  apply Hstep; auto.
Qed.

Lemma elem_of_xrange (n i : Z) : i ∈ xrange n <-> 0 <= i < n.
Proof.
  unfold xrange. rewrite elem_of_seqZ. lia.
Qed.

Lemma xrange_nonpos (n : Z) : n <= 0 -> xrange n = [].
Proof.
  intros Hn. unfold xrange, seqZ.
  replace (Z.to_nat n) with O by lia. reflexivity.
Qed.

Lemma for_each_skip {S X} (xs : list X) (body : X -> S -> res S) s :
  (forall x t, body x t = Ok t) -> for_each xs body s = Ok s.
Proof.
  intros Hb. induction xs as [|x xs IH]; simpl; [reflexivity|].
  rewrite Hb. exact IH.
Qed.

Lemma valid_angle_ge_180 (a : Z) :
  valid_angle a = true -> (a =? 0) = false -> (a =? 90) = false -> 180 <= a.
Proof. unfold valid_angle. lia. Qed.

(** ** Rows, cells and slices *)

Lemma rect_cell_is_Some nrows ncols cells (r c : nat) :
  rect nrows ncols cells ->
  (is_Some (cell cells r c) <-> (r < nrows)%nat /\ (c < ncols)%nat).
Proof.
  intros [Hlen Hrows]. unfold cell. split.
  - destruct (cells !! r) as [row|] eqn:Hr; [|intros [? ?]; discriminate].
    intros Hc. apply lookup_lt_is_Some in Hc.
    pose proof (lookup_lt_Some _ _ _ Hr).
    rewrite Forall_lookup in Hrows. rewrite (Hrows _ _ Hr) in Hc. lia.
  - intros [Hr Hc]. rewrite <- Hlen in Hr.
    apply lookup_lt_is_Some in Hr as [row Hrow]. rewrite Hrow.
    apply lookup_lt_is_Some. rewrite Forall_lookup in Hrows.
    rewrite (Hrows _ _ Hrow). exact Hc.
Qed.

Lemma rect_cell_Some nrows ncols cells (r c : nat) :
  rect nrows ncols cells -> (r < nrows)%nat -> (c < ncols)%nat ->
  exists v, cell cells r c = Some v.
Proof. intros H Hr Hc. apply (rect_cell_is_Some _ _ _ r c H). auto. Qed.

Lemma rect_cell_lt nrows ncols cells (r c : nat) v :
  rect nrows ncols cells -> cell cells r c = Some v ->
  (r < nrows)%nat /\ (c < ncols)%nat.
Proof. intros H E. apply (rect_cell_is_Some _ _ _ r c H). eauto. Qed.

Lemma rect_replicate (r c : nat) (v : Z) :
  rect r c (replicate r (replicate c v)).
Proof.
  split; [apply length_replicate|].
  apply Forall_replicate. apply length_replicate.
Qed.

Lemma cell_replicate (r c i j : nat) (v u : Z) :
  cell (replicate r (replicate c v)) i j = Some u -> u = v.
Proof.
  unfold cell. destruct (replicate r _ !! i) as [row|] eqn:E; [|discriminate].
  apply lookup_replicate in E as [-> _].
  intros E. apply lookup_replicate in E as [-> _]. reflexivity.
Qed.

Lemma index_of_Some i idx k : index_of i idx = Some k -> idx !! k = Some i.
Proof.
  revert k. induction idx as [|j idx IH]; intros k; simpl; [discriminate|].
  destruct (Nat.eqb_spec i j) as [->|Hne].
  - intros [= <-]. reflexivity.
  - destruct (index_of i idx) as [k'|]; simpl; [|discriminate].
    intros [= <-]. simpl. apply IH. reflexivity.
Qed.

Lemma index_of_None i idx k : index_of i idx = None -> idx !! k <> Some i.
Proof.
  revert k. induction idx as [|j idx IH]; intros k; simpl; [discriminate|].
  destruct (Nat.eqb_spec i j) as [->|Hne]; [discriminate|].
  destruct (index_of i idx) as [k'|]; simpl; [discriminate|].
  intros _. destruct k as [|k]; simpl; [congruence | apply IH; reflexivity].
Qed.

Lemma index_of_lookup i idx k :
  NoDup idx -> idx !! k = Some i -> index_of i idx = Some k.
Proof.
  intros Hnd Hk. destruct (index_of i idx) as [k'|] eqn:E.
  - apply index_of_Some in E. f_equal. eapply NoDup_lookup; eauto.
  - exfalso. eapply index_of_None; eauto.
Qed.

Lemma length_prog a step n : length (prog a step n) = n.
Proof. unfold prog. rewrite length_fmap. apply length_seq. Qed.

Lemma prog_lookup a step n (k j : nat) :
  prog a step n !! k = Some j <->
  (k < n)%nat /\ j = Z.to_nat (a + Z.of_nat k * step).
Proof.
  unfold prog. rewrite list_lookup_fmap. split.
  - destruct (seq 0 n !! k) as [k'|] eqn:E; simpl; [|discriminate].
    apply lookup_seq in E as [-> Hk]. intros [= <-]. auto.
  - intros [Hk ->]. rewrite lookup_seq_lt by exact Hk. reflexivity.
Qed.

Lemma prog_NoDup a step n : 0 <= a -> 0 < step -> NoDup (prog a step n).
Proof.
  intros Ha Hs. apply NoDup_alt. intros k1 k2 j H1 H2.
  apply prog_lookup in H1 as [_ ->]. apply prog_lookup in H2 as [_ E]. nia.
Qed.

Lemma index_of_prog a step n (i k : nat) :
  0 <= a -> 0 < step ->
  (index_of i (prog a step n) = Some k <->
   (k < n)%nat /\ Z.of_nat i = a + Z.of_nat k * step).
Proof.
  intros Ha Hs. split.
  - intros E. apply index_of_Some, prog_lookup in E as [Hk ->]. split; [exact Hk|nia].
  - intros [Hk E]. apply index_of_lookup; [apply prog_NoDup; assumption|].
    apply prog_lookup. split; [exact Hk|lia].
Qed.

Lemma cell_update_rows f dst ridx cidx sr sc src (r c : nat) :
  cell (update_rows f dst ridx cidx sr sc src) r c =
  (fun v =>
     match index_of r ridx, index_of c cidx with
     | Some k, Some l =>
         match cell src (bcast sr k) (bcast sc l) with
         | Some s => f v s
         | None => v
         end
     | _, _ => v
     end) <$> cell dst r c.
Proof.
  unfold cell, update_rows. rewrite list_lookup_imap.
  destruct (dst !! r) as [row|]; simpl; [|reflexivity].
  destruct (index_of r ridx) as [k|].
  - rewrite list_lookup_imap. destruct (row !! c); simpl; [|reflexivity].
    destruct (index_of c cidx); reflexivity.
  - destruct (row !! c); reflexivity.
Qed.

Lemma rect_update_rows f dst ridx cidx sr sc src nrows ncols :
  rect nrows ncols dst ->
  rect nrows ncols (update_rows f dst ridx cidx sr sc src).
Proof.
  intros [Hlen Hrows]. unfold update_rows. split.
  - rewrite length_imap. exact Hlen.
  - rewrite Forall_lookup in Hrows. apply Forall_lookup. intros r row Hr.
    rewrite list_lookup_imap in Hr.
    destruct (dst !! r) as [row0|] eqn:E; simpl in Hr; [|discriminate].
    injection Hr as <-. specialize (Hrows _ _ E).
    destruct (index_of r ridx); [rewrite length_imap|]; exact Hrows.
Qed.

Lemma bcast_lt (n k : nat) : (k < n)%nat -> bcast n k = k.
Proof.
  unfold bcast. destruct (Nat.eqb_spec n 1) as [->|_]; [lia | reflexivity].
Qed.

(** The strided slice [i : R*y : y] of an axis of length [R*y] selects
    one index in each block of [y], and so [R] of them. *)
Lemma slice_indices_stride (R : nat) (y i : Z) :
  0 < y -> 0 <= i < y ->
  slice_indices (Z.of_nat R * y) i (Z.of_nat R * y) y = Ok (prog i y R).
Proof.
  intros Hy Hi. unfold slice_indices, prog.
  destruct (Z.eqb_spec y 0) as [?|_]; [lia|]. f_equal.
  destruct R as [|R].
  - change (Z.of_nat 0 * y) with 0.
    assert (adjust 0 y i = 0) as ->.
    { unfold adjust. destruct (Z.ltb_spec i 0); [lia|].
      destruct (Z.leb_spec 0 i); [|lia].
      destruct (Z.ltb_spec y 0); [lia | reflexivity]. }
    assert (adjust 0 y 0 = 0) as ->.
    { unfold adjust. simpl. destruct (Z.ltb_spec y 0); [lia | reflexivity]. }
    unfold slice_count. destruct (Z.ltb_spec y 0); [lia | reflexivity].
  - assert (0 <= Z.of_nat R * y) by nia.
    assert (adjust (Z.of_nat (S R) * y) y i = i) as ->.
    { unfold adjust. destruct (Z.ltb_spec i 0); [lia|].
      destruct (Z.leb_spec (Z.of_nat (S R) * y) i); [nia | reflexivity]. }
    assert (adjust (Z.of_nat (S R) * y) y (Z.of_nat (S R) * y)
            = Z.of_nat (S R) * y) as ->.
    { unfold adjust. destruct (Z.ltb_spec (Z.of_nat (S R) * y) 0); [nia|].
      destruct (Z.leb_spec (Z.of_nat (S R) * y) (Z.of_nat (S R) * y)); [|lia].
      destruct (Z.ltb_spec y 0); [lia | reflexivity]. }
    assert (slice_count i (Z.of_nat (S R) * y) y = Z.of_nat (S R)) as ->.
    { unfold slice_count. destruct (Z.ltb_spec y 0); [lia|].
      destruct (Z.ltb_spec i (Z.of_nat (S R) * y)); [|nia].
      assert ((Z.of_nat (S R) * y - i - 1) / y = Z.of_nat R); [|lia].
      symmetry. apply (Z.div_unique _ _ _ (y - i - 1)); [lia | nia]. }
    rewrite Nat2Z.id. reflexivity.
Qed.

(** The window [i : R+i] of an axis of length [R + 2m] selects the [R]
    indices from [i] on, for every offset [i] up to [2m]. *)
Lemma slice_indices_window (R : nat) (m i : Z) :
  0 <= i <= 2 * m ->
  slice_indices (Z.of_nat R + 2 * m) i (Z.of_nat R + i) 1 = Ok (prog i 1 R).
Proof.
  intros Hi. unfold slice_indices, prog. simpl. f_equal.
  assert (adjust (Z.of_nat R + 2 * m) 1 i = i) as ->.
  { unfold adjust. destruct (Z.ltb_spec i 0); [lia|].
    destruct (Z.leb_spec (Z.of_nat R + 2 * m) i); [simpl; lia | reflexivity]. }
  assert (adjust (Z.of_nat R + 2 * m) 1 (Z.of_nat R + i) = Z.of_nat R + i) as ->.
  { unfold adjust. destruct (Z.ltb_spec (Z.of_nat R + i) 0); [lia|].
    destruct (Z.leb_spec (Z.of_nat R + 2 * m) (Z.of_nat R + i));
      [simpl; lia | reflexivity]. }
  assert (slice_count i (Z.of_nat R + i) 1 = Z.of_nat R) as ->.
  { unfold slice_count. simpl.
    destruct (Z.ltb_spec i (Z.of_nat R + i)); [|lia].
    rewrite Z.div_1_r. lia. }
  rewrite Nat2Z.id. reflexivity.
Qed.

Lemma update_slice_Ok ok f ddt dr dc dcells sdt sr sc scells
    r0 r1 rstep c0 c1 cstep ridx cidx :
  slice_indices (Z.of_nat dr) r0 r1 rstep = Ok ridx ->
  slice_indices (Z.of_nat dc) c0 c1 cstep = Ok cidx ->
  ok ddt sdt = true -> length ridx = sr -> length cidx = sc ->
  update_slice ok f (Arr2 ddt dr dc dcells) (r0, r1, rstep) (c0, c1, cstep)
               (Arr2 sdt sr sc scells)
  = Ok (Arr2 ddt dr dc (update_rows f dcells ridx cidx sr sc scells)).
Proof.
  intros Hr Hc Hok Hlr Hlc. unfold update_slice.
  rewrite Hr, Hc. simpl. rewrite Hok. simpl.
  unfold bcast_ok. rewrite Hlr, Hlc, !Nat.eqb_refl. reflexivity.
Qed.

(** ** The loops of [scale] *)

Lemma index_of_stride (R : nat) (y i : Z) (r : nat) :
  0 < y -> 0 <= i < y -> Z.of_nat r < Z.of_nat R * y ->
  Z.of_nat r mod y = i ->
  index_of r (prog i y R) = Some (Z.to_nat (Z.of_nat r / y)).
Proof.
  intros Hy Hi Hr Hmod. apply index_of_prog; [lia | lia |].
  pose proof (Z.div_mod (Z.of_nat r) y ltac:(lia)) as Hdm.
  assert (0 <= Z.of_nat r / y) by (apply Z.div_pos; lia).
  assert (Z.of_nat r / y < Z.of_nat R) by (apply Z.div_lt_upper_bound; lia).
  split; [lia|]. rewrite Z2Nat.id by lia. lia.
Qed.

Lemma index_of_stride_inv (R : nat) (y i : Z) (r k : nat) :
  0 < y -> 0 <= i < y -> index_of r (prog i y R) = Some k ->
  (k < R)%nat /\ Z.of_nat r mod y = i /\ Z.of_nat r / y = Z.of_nat k.
Proof.
  intros Hy Hi E. apply index_of_prog in E as [Hk E]; [|lia|lia].
  split; [exact Hk|]. rewrite E. split.
  - rewrite Z.mod_add by lia. apply Z.mod_small. lia.
  - rewrite Z.div_add by lia. rewrite Z.div_small by lia. lia.
Qed.

Lemma float64_of_int_small (v : Z) :
  Z.abs v <= 2 ^ 53 -> float64_of_int v = v.
Proof.
  intros Hv. unfold float64_of_int.
  destruct (Z.ltb_spec (Z.abs v) (2 ^ 53)) as [_ | Hge]; [reflexivity|].
  assert (v = 2 ^ 53 \/ v = - 2 ^ 53) as [-> | ->] by lia;
    vm_compute; reflexivity.
Qed.

Lemma float64_of_int_nonneg (v : Z) : 0 <= v -> 0 <= float64_of_int v.
Proof.
  intros Hv. unfold float64_of_int.
  destruct (Z.ltb_spec (Z.abs v) (2 ^ 53)) as [_ | Hge]; [exact Hv|].
  assert (Z.sgn v = 1) as -> by lia. rewrite Z.mul_1_l.
  assert (0 <= Z.abs v / 2 ^ (Z.log2 (Z.abs v) - 52)) as Hq.
  { apply Z_div_nonneg_nonneg; [lia | apply Z.pow_nonneg; lia]. }
  apply Z.mul_nonneg_nonneg; [|apply Z.pow_nonneg; lia].
  repeat match goal with
         | |- context [if ?b then _ else _] => destruct b
         end; lia.
Qed.

Lemma stored_nonneg (sdt ddt : dtype) (v : Z) :
  0 <= v -> 0 <= stored sdt ddt v.
Proof.
  intros Hv. destruct sdt, ddt; simpl; try exact Hv.
  apply float64_of_int_nonneg, Hv.
Qed.

Lemma stored_small (sdt : dtype) (v : Z) :
  sdt = Float \/ Z.abs v <= 2 ^ 53 -> stored sdt Float v = v.
Proof.
  intros [-> | Hv]; [reflexivity|].
  destruct sdt; [|reflexivity]. simpl. apply float64_of_int_small, Hv.
Qed.

Lemma cell_as_float64 (sdt : dtype) (cells : list (list Z)) (r c : nat) :
  cell (as_float64 sdt cells) r c = stored sdt Float <$> cell cells r c.
Proof.
  unfold cell, as_float64. rewrite list_lookup_fmap.
  destruct (cells !! r) as [row|]; simpl; [|reflexivity].
  apply list_lookup_fmap.
Qed.

Lemma nonneg_as_float64 (sdt : dtype) (cells : list (list Z)) :
  nonneg cells -> nonneg (as_float64 sdt cells).
Proof.
  intros Hn r c v Hv. rewrite cell_as_float64 in Hv.
  destruct (cell cells r c) as [u|] eqn:Hu; [|discriminate].
  injection Hv as <-. apply stored_nonneg. eapply Hn, Hu.
Qed.

Lemma rect_as_float64 (sdt : dtype) (R C : nat) (cells : list (list Z)) :
  rect R C cells -> rect R C (as_float64 sdt cells).
Proof.
  intros [Hlen Hrows]. unfold as_float64.
  split; [rewrite length_fmap; exact Hlen|].
  apply Forall_fmap. eapply Forall_impl; [exact Hrows|].
  intros row Hrow. simpl. rewrite length_fmap. exact Hrow.
Qed.

Lemma as_float64_Float (cells : list (list Z)) :
  as_float64 Float cells = cells.
Proof.
  unfold as_float64. rewrite <- (list_fmap_id cells) at 2.
  apply list_fmap_ext. intros _ row _. simpl. apply list_fmap_id.
Qed.

Section ScaleLoop.
Variables x y : Z.
Hypothesis Hx : 0 < x.
Hypothesis Hy : 0 < y.

Lemma assign_step sdt (R C : nat) src done arr (i j : Z) :
  rect R C src -> 0 <= i < y -> 0 <= j < x ->
  scaled_on x y (as_float64 sdt src) R C done arr ->
  exists arr',
    assign_slice arr (i, Z.of_nat R * y, y) (j, Z.of_nat C * x, x)
                 (Arr2 sdt R C src) = Ok arr'
    /\ scaled_on x y (as_float64 sdt src) R C (done ++ [(i, j)]) arr'.
Proof.
  intros Hsrc Hi Hj (cells & -> & Hrect & Hinv).
  eexists. split.
  - unfold assign_slice.
    apply update_slice_Ok with (ridx := prog i y R) (cidx := prog j x C).
    + rewrite Z2Nat.id by nia. apply slice_indices_stride; lia.
    + rewrite Z2Nat.id by nia. apply slice_indices_stride; lia.
    + reflexivity.
    + apply length_prog.
    + apply length_prog.
  - eexists. split; [reflexivity|].
    split; [apply rect_update_rows; exact Hrect|].
    intros r c Hr Hc Hdone. rewrite cell_update_rows.
    destruct (rect_cell_Some _ _ cells r c Hrect) as [v Hv]; [lia | lia |].
    assert ((Z.of_nat r mod y, Z.of_nat c mod x) ∈ done ->
            Some v = cell (as_float64 sdt src) (Z.to_nat (Z.of_nat r / y))
                          (Z.to_nat (Z.of_nat c / x))) as Hold.
    { intros Hd. rewrite <- Hv. apply Hinv; assumption. }
    assert (index_of r (prog i y R) = None \/ index_of c (prog j x C) = None ->
            (Z.of_nat r mod y, Z.of_nat c mod x) ∈ done) as Hmiss.
    { intros Hnone. apply elem_of_app in Hdone as [Hd | Hnew]; [exact Hd|].
      apply list_elem_of_singleton in Hnew. injection Hnew as Er Ec.
      rewrite (index_of_stride R y i r), (index_of_stride C x j c) in Hnone
        by (assumption || lia).
      destruct Hnone; discriminate. }
    rewrite Hv. simpl.
    destruct (index_of r (prog i y R)) as [k|] eqn:Ek;
      [|apply Hold, Hmiss; auto].
    destruct (index_of c (prog j x C)) as [l|] eqn:El;
      [|apply Hold, Hmiss; auto].
    apply index_of_stride_inv in Ek as (Hk & _ & ->); [|lia|lia].
    apply index_of_stride_inv in El as (Hl & _ & ->); [|lia|lia].
    rewrite !Nat2Z.id, !bcast_lt by assumption. rewrite cell_as_float64.
    destruct (rect_cell_Some _ _ src k l Hsrc Hk Hl) as [s ->]. reflexivity.
Qed.

Lemma scale_step_inv (self : Bug) pdt (R C : nat) psrc mdt (MR MC : nat) msrc
    done (st : ndarray * ndarray) (i j : Z) :
  patch self = Arr2 pdt R C psrc -> rect R C psrc ->
  mask self = Arr2 mdt MR MC msrc -> rect MR MC msrc ->
  i ∈ xrange y -> j ∈ xrange x ->
  scaled_on x y (as_float64 pdt psrc) R C done st.1
  /\ scaled_on x y (as_float64 mdt msrc) MR MC done st.2 ->
  exists st',
    scale_step self (Z.of_nat R) (Z.of_nat C) (Z.of_nat MR) (Z.of_nat MC)
               x y i j st = Ok st'
    /\ scaled_on x y (as_float64 pdt psrc) R C (done ++ [(i, j)]) st'.1
    /\ scaled_on x y (as_float64 mdt msrc) MR MC (done ++ [(i, j)]) st'.2.
Proof.
  intros Hp Hpr Hm Hmr Hi Hj [HP HM]. destruct st as [p m]. simpl in *.
  apply elem_of_xrange in Hi, Hj.
  destruct (assign_step pdt R C psrc done p i j Hpr Hi Hj HP) as (p' & Ep & HP').
  destruct (assign_step mdt MR MC msrc done m i j Hmr Hi Hj HM) as (m' & Em & HM').
  exists (p', m'). unfold scale_step. rewrite Hp, Hm, Ep. simpl.
  rewrite Em. simpl. auto.
Qed.

End ScaleLoop.

Lemma scaled_on_nil x y src R C :
  0 < x -> 0 < y ->
  scaled_on x y src R C []
    (Arr2 Float (Z.to_nat (Z.of_nat R * y)) (Z.to_nat (Z.of_nat C * x))
       (replicate (Z.to_nat (Z.of_nat R * y))
                  (replicate (Z.to_nat (Z.of_nat C * x)) 0))).
Proof.
  intros Hx Hy. eexists. split; [reflexivity|].
  split; [apply rect_replicate|]. intros r c _ _ Hin.
  apply elem_of_nil in Hin. contradiction.
Qed.

(** [scale] with positive factors: the result and its cells, which are
    the source cells as float64. *)
Lemma scale_positive (self : Bug) pdt (R C : nat) psrc mdt (MR MC : nat) msrc
    (x y : Z) :
  patch self = Arr2 pdt R C psrc -> rect R C psrc ->
  mask self = Arr2 mdt MR MC msrc -> rect MR MC msrc ->
  0 < x -> 0 < y ->
  exists p' m',
    scale self (VInt x) (Some (VInt y))
    = Ok (mkBug (name self)
            (Arr2 Float (Z.to_nat (Z.of_nat R * y))
                        (Z.to_nat (Z.of_nat C * x)) p')
            (Arr2 Float (Z.to_nat (Z.of_nat MR * y))
                        (Z.to_nat (Z.of_nat MC * x)) m'))
    /\ rect (Z.to_nat (Z.of_nat R * y)) (Z.to_nat (Z.of_nat C * x)) p'
    /\ rect (Z.to_nat (Z.of_nat MR * y)) (Z.to_nat (Z.of_nat MC * x)) m'
    /\ (forall r c : nat,
          Z.of_nat r < Z.of_nat R * y -> Z.of_nat c < Z.of_nat C * x ->
          cell p' r c = cell (as_float64 pdt psrc)
                             (Z.to_nat (Z.of_nat r / y))
                             (Z.to_nat (Z.of_nat c / x)))
    /\ (forall r c : nat,
          Z.of_nat r < Z.of_nat MR * y -> Z.of_nat c < Z.of_nat MC * x ->
          cell m' r c = cell (as_float64 mdt msrc)
                             (Z.to_nat (Z.of_nat r / y))
                             (Z.to_nat (Z.of_nat c / x))).
Proof.
  intros Hp Hpr Hm Hmr Hx Hy.
  destruct (nested_inv
              (fun done st =>
                 scaled_on x y (as_float64 pdt psrc) R C done st.1
                 /\ scaled_on x y (as_float64 mdt msrc) MR MC done st.2)
              (scale_step self (Z.of_nat R) (Z.of_nat C)
                          (Z.of_nat MR) (Z.of_nat MC) x y)
              (xrange y) (xrange x))
    with (s := (Arr2 Float (Z.to_nat (Z.of_nat R * y))
                  (Z.to_nat (Z.of_nat C * x))
                  (replicate (Z.to_nat (Z.of_nat R * y))
                     (replicate (Z.to_nat (Z.of_nat C * x)) 0)),
                Arr2 Float (Z.to_nat (Z.of_nat MR * y))
                  (Z.to_nat (Z.of_nat MC * x))
                  (replicate (Z.to_nat (Z.of_nat MR * y))
                     (replicate (Z.to_nat (Z.of_nat MC * x)) 0))))
    as ([p m] & Hloop & HP & HM).
  - intros pre i j st Hi Hj Hst.
    eapply scale_step_inv; eauto.
  - split; apply scaled_on_nil; assumption.
  - simpl in HP, HM.
    destruct HP as (p' & -> & Hrp & Hcp). destruct HM as (m' & -> & Hrm & Hcm).
    exists p', m'. split; [|split; [exact Hrp|split; [exact Hrm|split]]].
    + unfold scale. simpl. rewrite Hp, Hm. simpl.
      rewrite !(proj2 (Z.ltb_ge _ 0)) by nia. simpl.
      rewrite Hloop. reflexivity.
    + intros r c Hr Hc. apply Hcp; [exact Hr | exact Hc |].
      apply elem_of_pairs. rewrite !elem_of_xrange.
      split; apply Z.mod_pos_bound; assumption.
    + intros r c Hr Hc. apply Hcm; [exact Hr | exact Hc |].
      apply elem_of_pairs. rewrite !elem_of_xrange.
      split; apply Z.mod_pos_bound; assumption.
Qed.

Lemma scale_default (self : Bug) (x : pyval) :
  scale self x None = scale self x (Some x).
Proof. reflexivity. Qed.


(** ** The loops of [margin] *)

Lemma index_of_window (R : nat) (i : Z) (r k : nat) :
  0 <= i ->
  (index_of r (prog i 1 R) = Some k <->
   (k < R)%nat /\ Z.of_nat r = i + Z.of_nat k).
Proof.
  intros Hi. rewrite index_of_prog by lia. rewrite Z.mul_1_r. reflexivity.
Qed.

Lemma lor_nonzero (a b : Z) : Z.lor a b <> 0 <-> a <> 0 \/ b <> 0.
Proof. rewrite Z.lor_eq_0_iff. lia. Qed.

Lemma ior_step (R C : nat) src done arr (m i j : Z) :
  rect R C src -> 0 <= i <= 2 * m -> 0 <= j <= 2 * m ->
  dilated_on m src R C done arr ->
  exists arr',
    ior_slice arr
      (i, Z.of_nat R + m * 2 - (m * 2 + 1) + 1 + i, 1)
      (j, Z.of_nat C + m * 2 - (m * 2 + 1) + 1 + j, 1)
      (Arr2 Int R C src) = Ok arr'
    /\ dilated_on m src R C (done ++ [(i, j)]) arr'.
Proof.
  intros Hsrc Hi Hj (cells & -> & Hrect & Hinv).
  eexists. split.
  - unfold ior_slice.
    apply update_slice_Ok with (ridx := prog i 1 R) (cidx := prog j 1 C).
    + rewrite Z2Nat.id by lia.
      replace (Z.of_nat R + m * 2 - (m * 2 + 1) + 1 + i)
        with (Z.of_nat R + i) by lia.
      replace (Z.of_nat R + m * 2) with (Z.of_nat R + 2 * m) by lia.
      apply slice_indices_window. lia.
    + rewrite Z2Nat.id by lia.
      replace (Z.of_nat C + m * 2 - (m * 2 + 1) + 1 + j)
        with (Z.of_nat C + j) by lia.
      replace (Z.of_nat C + m * 2) with (Z.of_nat C + 2 * m) by lia.
      apply slice_indices_window. lia.
    + reflexivity.
    + apply length_prog.
    + apply length_prog.
  - eexists. split; [reflexivity|].
    split; [apply rect_update_rows; exact Hrect|].
    intros r c v' Hv'. rewrite cell_update_rows in Hv'.
    destruct (cell cells r c) as [v|] eqn:Hv; [|discriminate].
    simpl in Hv'. injection Hv' as <-.
    destruct (Hinv r c v Hv) as [Hsign Hocc]. clear Hinv. split.
    { intros Hnn.
      destruct (index_of r (prog i 1 R)); [|auto].
      destruct (index_of c (prog j 1 C)); [|auto].
      destruct (cell src _ _) as [s|] eqn:Hs; [|auto].
      apply Z.lor_nonneg. split; [auto | eapply Hnn; exact Hs]. }
    assert (forall pr pc pv,
              Z.of_nat r = i + Z.of_nat pr -> Z.of_nat c = j + Z.of_nat pc ->
              cell src pr pc = Some pv ->
              index_of r (prog i 1 R) = Some pr
              /\ index_of c (prog j 1 C) = Some pc) as Hhit.
    { intros pr pc pv Er Ec Hpv.
      destruct (rect_cell_lt _ _ _ _ _ _ Hsrc Hpv) as [Hpr Hpc].
      split; apply index_of_window; (lia || auto). }
    assert (v <> 0 ->
            exists (i0 j0 : Z) (pr pc : nat) (pv : Z),
              (i0, j0) ∈ done ++ [(i, j)]
              /\ Z.of_nat r = i0 + Z.of_nat pr /\ Z.of_nat c = j0 + Z.of_nat pc
              /\ cell src pr pc = Some pv /\ pv <> 0) as Hkeep.
    { intros Hne. apply Hocc in Hne as (i0 & j0 & pr & pc & pv & Hd & H').
      exists i0, j0, pr, pc, pv. split; [|exact H'].
      apply elem_of_app. left. exact Hd. }
    destruct (index_of r (prog i 1 R)) as [k|] eqn:Ek;
      [destruct (index_of c (prog j 1 C)) as [l|] eqn:El|].
    + apply index_of_window in Ek as [Hk Er]; [|lia].
      apply index_of_window in El as [Hl Ec]; [|lia].
      rewrite !bcast_lt by assumption.
      destruct (rect_cell_Some _ _ src k l Hsrc Hk Hl) as [s Hs]. rewrite Hs.
      rewrite lor_nonzero. split.
      * intros [Hne | Hne]; [apply Hkeep; exact Hne|].
        exists i, j, k, l, s. split; [|auto].
        apply elem_of_app. right. apply list_elem_of_singleton. reflexivity.
      * intros (i0 & j0 & pr & pc & pv & Hd & Er' & Ec' & Hpv & Hne).
        apply elem_of_app in Hd as [Hd | Hd].
        -- left. apply Hocc. exists i0, j0, pr, pc, pv. auto.
        -- apply list_elem_of_singleton in Hd. injection Hd as -> ->.
           assert (pr = k) as -> by lia. assert (pc = l) as -> by lia.
           right. congruence.
    + split; [exact Hkeep|].
      intros (i0 & j0 & pr & pc & pv & Hd & Er' & Ec' & Hpv & Hne).
      apply elem_of_app in Hd as [Hd | Hd].
      * apply Hocc. exists i0, j0, pr, pc, pv. auto.
      * apply list_elem_of_singleton in Hd. injection Hd as -> ->.
        destruct (Hhit pr pc pv Er' Ec' Hpv) as [_ E]. congruence.
    + split; [exact Hkeep|].
      intros (i0 & j0 & pr & pc & pv & Hd & Er' & Ec' & Hpv & Hne).
      apply elem_of_app in Hd as [Hd | Hd].
      * apply Hocc. exists i0, j0, pr, pc, pv. auto.
      * apply list_elem_of_singleton in Hd. injection Hd as -> ->.
        destruct (Hhit pr pc pv Er' Ec' Hpv) as [E _]. congruence.
Qed.

Lemma dilated_on_nil m src R C :
  dilated_on m src R C []
    (Arr2 Int (Z.to_nat (Z.of_nat R + m * 2)) (Z.to_nat (Z.of_nat C + m * 2))
       (replicate (Z.to_nat (Z.of_nat R + m * 2))
                  (replicate (Z.to_nat (Z.of_nat C + m * 2)) 0))).
Proof.
  eexists. split; [reflexivity|]. split; [apply rect_replicate|].
  intros r c v Hv. apply cell_replicate in Hv as ->.
  split; [lia|]. split; [congruence|].
  intros (i & j & pr & pc & pv & Hin & _). apply elem_of_nil in Hin.
  contradiction.
Qed.

(** [margin] with a non-negative width on an integer pattern: the
    result, and which cells of the new mask are occupied. *)
Lemma margin_nonneg (self : Bug) (R C : nat) src (m : Z) :
  patch self = Arr2 Int R C src -> rect R C src -> 0 <= m ->
  exists cells,
    margin self m
    = Ok (mkBug (name self) (patch self)
            (Arr2 Int (Z.to_nat (Z.of_nat R + m * 2))
                      (Z.to_nat (Z.of_nat C + m * 2)) cells))
    /\ rect (Z.to_nat (Z.of_nat R + m * 2)) (Z.to_nat (Z.of_nat C + m * 2))
            cells
    /\ (nonneg src -> nonneg cells)
    /\ forall (r c : nat) (v : Z),
         cell cells r c = Some v ->
         (v <> 0 <->
          exists (pr pc : nat) (pv : Z),
            cell src pr pc = Some pv /\ pv <> 0
            /\ Z.max (Z.abs (Z.of_nat r - m - Z.of_nat pr))
                     (Z.abs (Z.of_nat c - m - Z.of_nat pc)) <= m).
Proof.
  intros Hp Hsrc Hm.
  destruct (nested_inv (dilated_on m src R C)
              (fun i j mask' =>
                 ior_slice mask'
                   (i, Z.of_nat R + m * 2 - (m * 2 + 1) + 1 + i, 1)
                   (j, Z.of_nat C + m * 2 - (m * 2 + 1) + 1 + j, 1)
                   (patch self))
              (xrange (m * 2 + 1)) (xrange (m * 2 + 1)))
    with (s := Arr2 Int (Z.to_nat (Z.of_nat R + m * 2))
                 (Z.to_nat (Z.of_nat C + m * 2))
                 (replicate (Z.to_nat (Z.of_nat R + m * 2))
                    (replicate (Z.to_nat (Z.of_nat C + m * 2)) 0)))
    as (arr & Hloop & cells & -> & Hrect & Hinv).
  - intros pre i j s Hi Hj Hs. apply elem_of_xrange in Hi, Hj.
    rewrite Hp. apply ior_step; (assumption || lia).
  - apply dilated_on_nil.
  - exists cells. split; [|split; [exact Hrect|split]].
    + unfold margin. rewrite Hp. simpl.
      rewrite !(proj2 (Z.ltb_ge _ 0)) by lia. simpl.
      rewrite Hp in Hloop. rewrite Hloop. reflexivity.
    + intros Hnn r c v Hv. apply (Hinv r c v Hv). exact Hnn.
    + intros r c v Hv. rewrite (proj2 (Hinv r c v Hv)). split.
      * intros (i & j & pr & pc & pv & Hin & Er & Ec & Hpv & Hne).
        apply elem_of_pairs in Hin as [Hi Hj].
        apply elem_of_xrange in Hi, Hj.
        exists pr, pc, pv. split; [exact Hpv|]. split; [exact Hne|]. lia.
      * intros (pr & pc & pv & Hpv & Hne & Hd).
        exists (Z.of_nat r - Z.of_nat pr), (Z.of_nat c - Z.of_nat pc), pr, pc, pv.
        split; [|split; [lia|split; [lia|auto]]].
        apply elem_of_pairs. rewrite !elem_of_xrange. lia.
Qed.

(** [margin] with a negative width: no loop iteration runs, and only
    [numpy.zeros] can object. *)
Lemma margin_negative (self : Bug) dt (R C : nat) src (m : Z) :
  patch self = Arr2 dt R C src -> m < 0 ->
  margin self m
  = if (Z.of_nat R + m * 2 <? 0) || (Z.of_nat C + m * 2 <? 0)
    then Err ValueError
    else Ok (mkBug (name self) (patch self)
               (Arr2 Int (Z.to_nat (Z.of_nat R + m * 2))
                         (Z.to_nat (Z.of_nat C + m * 2))
                  (replicate (Z.to_nat (Z.of_nat R + m * 2))
                     (replicate (Z.to_nat (Z.of_nat C + m * 2)) 0)))).
Proof.
  intros Hp Hm. unfold margin. rewrite Hp. simpl.
  destruct ((Z.of_nat R + m * 2 <? 0) || (Z.of_nat C + m * 2 <? 0));
    [reflexivity|].
  simpl. rewrite xrange_nonpos by lia. reflexivity.
Qed.

(** ** margin *)

(** C1, for the patterns on which it holds.  [margin(m)] with [m >= 0],
    on a Bug whose pattern is a two-axis integer array of shape (R, C),
    returns a Bug with the same name and pattern and a mask of shape
    (R + 2m, C + 2m);
    a mask cell (r, c) is non-zero if and only if some non-zero pattern
    cell lies within Chebyshev distance m of its centred position
    (r - m, c - m). *)
Theorem margin_dilation (b : Bug) (R C : nat) (cells : list (list Z))
    (m : Z) :
  patch b = Arr2 Int R C cells -> rect R C cells -> 0 <= m ->
  exists (b' : Bug) (dt : dtype) (MR MC : nat) (mcells : list (list Z)),
    margin b m = Ok b'
    /\ name b' = name b /\ patch b' = patch b
    /\ mask b' = Arr2 dt MR MC mcells /\ rect MR MC mcells
    /\ shape (mask b') = Sh2 (Z.of_nat R + 2 * m) (Z.of_nat C + 2 * m)
    /\ forall r c : nat,
         Z.of_nat r < Z.of_nat R + 2 * m ->
         Z.of_nat c < Z.of_nat C + 2 * m ->
         exists v,
           cell mcells r c = Some v
           /\ (v <> 0 <->
               exists (pr pc : nat) (pv : Z),
                 cell cells pr pc = Some pv /\ pv <> 0
                 /\ Z.max (Z.abs (Z.of_nat r - m - Z.of_nat pr))
                          (Z.abs (Z.of_nat c - m - Z.of_nat pc)) <= m).
Proof.
  intros Hp Hrect Hm.
  destruct (margin_nonneg b R C cells m Hp Hrect Hm)
    as (mcells & E & Hr & _ & Hc).
  eexists _, Int, _, _, mcells. split; [exact E|]. simpl.
  split; [reflexivity|]. split; [reflexivity|]. split; [reflexivity|].
  split; [exact Hr|]. split; [f_equal; lia|].
  intros r c Hlr Hlc.
  destruct (rect_cell_Some _ _ mcells r c Hr) as [v Hv]; [lia | lia |].
  exists v. split; [exact Hv|]. apply Hc. exact Hv.
Qed.

Lemma rect_corner : rect 2 2 corner_rows.
Proof. split; [reflexivity|]. repeat constructor. Qed.

Lemma margin_dilation_witness :
  exists b', margin corner 1 = Ok b'
             /\ shape (mask b') = Sh2 4 4 /\ patch b' = patch corner.
Proof.
  destruct (margin_dilation corner 2 2 corner_rows 1 eq_refl rect_corner
              ltac:(lia))
    as (b' & dt & MR & MC & mcells & E & _ & Hp & _ & _ & Hs & _).
  exists b'. split; [exact E|]. split; [exact Hs | exact Hp].
Defined.

(** C1 as stated, for every Bug with a pattern of shape (R, C), fails:
    the pattern of [Bug("hollow", [[]])] has shape (1, 0) and element
    type float64, and [margin(0)] raises a TypeError at
    [mask[...] |= self.patch] instead of returning a Bug. *)
Lemma margin_float_pattern_rejected :
  Bug_init "hollow" (AList [[]]) None = Ok hollow
  /\ shape (patch hollow) = Sh2 1 0
  /\ margin hollow 0 = Err TypeError
  /\ ~ succeeds (margin hollow 0).
Proof.
  assert (margin hollow 0 = Err TypeError) as E by (vm_compute; reflexivity).
  split; [reflexivity|]. split; [reflexivity|]. split; [exact E|].
  intros [b' Hb']. rewrite E in Hb'. discriminate.
Qed.

(** C9.  The Bug returned by [margin(m)], [m >= 0], has
    [marginh = marginw = m], whatever mask the receiver had. *)
Theorem margin_margins (b : Bug) (R C : nat) (cells : list (list Z))
    (m : Z) :
  patch b = Arr2 Int R C cells -> rect R C cells -> 0 <= m ->
  exists b' : Bug,
    margin b m = Ok b' /\ marginh b' = Ok m /\ marginw b' = Ok m.
Proof.
  intros Hp Hrect Hm.
  destruct (margin_nonneg b R C cells m Hp Hrect Hm) as (mcells & E & _ & _).
  eexists. split; [exact E|].
  unfold marginh, marginw, mh, mw, h, w. simpl. rewrite Hp. simpl.
  rewrite !Z2Nat.id by lia.
  replace (Z.of_nat R + m * 2 - Z.of_nat R) with (m * 2) by lia.
  replace (Z.of_nat C + m * 2 - Z.of_nat C) with (m * 2) by lia.
  rewrite Z.div_mul by lia. split; reflexivity.
Qed.

Lemma margin_margins_witness :
  exists b', margin corner 3 = Ok b' /\ marginh b' = Ok 3 /\ marginw b' = Ok 3.
Proof.
  exact (margin_margins corner 2 2 corner_rows 3 eq_refl rect_corner
           ltac:(lia)).
Defined.

(** C6, as the code has it.  On a Bug whose pattern is a two-axis
    integer array of shape (R, C): [margin(m)] succeeds for every
    [m >= 0], and [margin(0)] yields a mask of the pattern's shape; for
    [m < 0] it raises exactly when [R + 2m < 0] or [C + 2m < 0], and
    otherwise returns a Bug with an all-zero mask of shape
    (R + 2m, C + 2m). *)
Theorem margin_errors (b : Bug) (R C : nat) (cells : list (list Z)) :
  patch b = Arr2 Int R C cells -> rect R C cells ->
  (forall m, 0 <= m -> succeeds (margin b m))
  /\ (exists b0, margin b 0 = Ok b0 /\ shape (mask b0) = shape (patch b))
  /\ (forall m, m < 0 ->
        (raises (margin b m) <->
         Z.of_nat R + 2 * m < 0 \/ Z.of_nat C + 2 * m < 0))
  /\ (forall m, m < 0 ->
        0 <= Z.of_nat R + 2 * m -> 0 <= Z.of_nat C + 2 * m ->
        exists b' mcells,
          margin b m = Ok b'
          /\ mask b' = Arr2 Int (Z.to_nat (Z.of_nat R + 2 * m))
                            (Z.to_nat (Z.of_nat C + 2 * m)) mcells
          /\ forall r c v, cell mcells r c = Some v -> v = 0).
Proof.
  intros Hp Hrect. split; [|split; [|split]].
  - intros m Hm.
    destruct (margin_nonneg b R C cells m Hp Hrect Hm) as (mcells & E & _).
    eexists. exact E.
  - destruct (margin_nonneg b R C cells 0 Hp Hrect ltac:(lia))
      as (mcells & E & _).
    eexists. split; [exact E|]. simpl. rewrite Hp. simpl.
    f_equal; lia.
  - intros m Hm. rewrite (margin_negative b Int R C cells m Hp Hm).
    destruct (Z.ltb_spec (Z.of_nat R + m * 2) 0);
      destruct (Z.ltb_spec (Z.of_nat C + m * 2) 0); simpl;
      (split; [intros [e He]; try discriminate; lia
              | intros Hneg; try lia; eexists; reflexivity]).
  - intros m Hm HR HC. rewrite (margin_negative b Int R C cells m Hp Hm).
    rewrite !(proj2 (Z.ltb_ge _ 0)) by lia. simpl.
    eexists _, _. split; [reflexivity|]. simpl.
    replace (m * 2) with (2 * m) by lia. split; [reflexivity|].
    intros r c v Hv. apply cell_replicate in Hv. exact Hv.
Qed.

Lemma margin_errors_witness :
  succeeds (margin full 1) /\ raises (margin full (-2)).
Proof.
  destruct (margin_errors full 2 2 full_rows eq_refl
              ltac:(split; [reflexivity | repeat constructor]))
    as (Hok & _ & Hneg & _).
  split; [apply Hok; lia | apply Hneg; lia].
Defined.

(** C6 as stated fails: [margin(-1)] on a 2 x 2 pattern raises nothing
    and returns a Bug with an empty mask. *)
Lemma margin_negative_accepted :
  margin full (-1) = Ok (mkBug "full" (patch full) (Arr2 Int 0 0 []))
  /\ ~ raises (margin full (-1)).
Proof.
  assert (margin full (-1)
          = Ok (mkBug "full" (patch full) (Arr2 Int 0 0 []))) as E
    by (vm_compute; reflexivity).
  split; [exact E|]. intros [e He]. rewrite E in He. discriminate.
Qed.

(** ** scale *)

(** The source cell that [scale] reads for the cell (r, c). *)
Lemma scale_source_cell (R C : nat) (cells : list (list Z)) (x y : Z)
    (r c : nat) :
  rect R C cells -> 0 < x -> 0 < y ->
  Z.of_nat r < Z.of_nat R * y -> Z.of_nat c < Z.of_nat C * x ->
  exists v, cell cells (Z.to_nat (Z.of_nat r / y))
                       (Z.to_nat (Z.of_nat c / x)) = Some v.
Proof.
  intros Hrect Hx Hy Hr Hc.
  assert (0 <= Z.of_nat r / y < Z.of_nat R).
  { split; [apply Z.div_pos; lia | apply Z.div_lt_upper_bound; lia]. }
  assert (0 <= Z.of_nat c / x < Z.of_nat C).
  { split; [apply Z.div_pos; lia | apply Z.div_lt_upper_bound; lia]. }
  apply (rect_cell_Some R C); [exact Hrect | lia | lia].
Qed.

(** X27.  [scale(x, y)] with positive [x] and [y], on a Bug with
    pattern of shape (R, C) and mask of shape (MR, MC), returns a Bug
    of the same name whose pattern has shape (R*y, C*x) and whose mask
    has shape (MR*y, MC*x); the cell (r, c) of each is the source cell
    (r // y, c // x) converted to float64, which is the source cell
    itself when the source array is a float array or the value is at
    most 2^53 in magnitude. *)
Theorem scale_upsamples (b : Bug) pdt (R C : nat) (pcells : list (list Z))
    mdt (MR MC : nat) (mcells : list (list Z)) (x y : Z) :
  patch b = Arr2 pdt R C pcells -> rect R C pcells ->
  mask b = Arr2 mdt MR MC mcells -> rect MR MC mcells ->
  0 < x -> 0 < y ->
  exists (b' : Bug) (R1 C1 : nat) p' (R2 C2 : nat) m',
    scale b (VInt x) (Some (VInt y)) = Ok b'
    /\ name b' = name b
    /\ patch b' = Arr2 Float R1 C1 p' /\ rect R1 C1 p'
    /\ mask b' = Arr2 Float R2 C2 m' /\ rect R2 C2 m'
    /\ shape (patch b') = Sh2 (Z.of_nat R * y) (Z.of_nat C * x)
    /\ shape (mask b') = Sh2 (Z.of_nat MR * y) (Z.of_nat MC * x)
    /\ (forall r c : nat,
          Z.of_nat r < Z.of_nat R * y -> Z.of_nat c < Z.of_nat C * x ->
          exists v,
            cell pcells (Z.to_nat (Z.of_nat r / y))
                        (Z.to_nat (Z.of_nat c / x)) = Some v
            /\ cell p' r c = Some (stored pdt Float v)
            /\ (pdt = Float \/ Z.abs v <= 2 ^ 53 -> cell p' r c = Some v))
    /\ (forall r c : nat,
          Z.of_nat r < Z.of_nat MR * y -> Z.of_nat c < Z.of_nat MC * x ->
          exists v,
            cell mcells (Z.to_nat (Z.of_nat r / y))
                        (Z.to_nat (Z.of_nat c / x)) = Some v
            /\ cell m' r c = Some (stored mdt Float v)
            /\ (mdt = Float \/ Z.abs v <= 2 ^ 53 -> cell m' r c = Some v)).
Proof.
  intros Hp Hpr Hm Hmr Hx Hy.
  destruct (scale_positive b pdt R C pcells mdt MR MC mcells x y
              Hp Hpr Hm Hmr Hx Hy) as (p' & m' & E & Hrp & Hrm & Hcp & Hcm).
  eexists _, _, _, p', _, _, m'. split; [exact E|]. simpl.
  split; [reflexivity|]. split; [reflexivity|]. split; [exact Hrp|].
  split; [reflexivity|]. split; [exact Hrm|].
  split; [f_equal; apply Z2Nat.id; nia|].
  split; [f_equal; apply Z2Nat.id; nia|].
  split.
  - intros r c Hr Hc.
    destruct (scale_source_cell R C pcells x y r c Hpr Hx Hy Hr Hc)
      as [v Hv].
    assert (Hcell : cell p' r c = Some (stored pdt Float v)).
    { rewrite Hcp, cell_as_float64, Hv by assumption. reflexivity. }
    exists v. split; [exact Hv|]. split; [exact Hcell|].
    intros Hsame. rewrite Hcell. f_equal.
    apply stored_small. exact Hsame.
  - intros r c Hr Hc.
    destruct (scale_source_cell MR MC mcells x y r c Hmr Hx Hy Hr Hc)
      as [v Hv].
    assert (Hcell : cell m' r c = Some (stored mdt Float v)).
    { rewrite Hcm, cell_as_float64, Hv by assumption. reflexivity. }
    exists v. split; [exact Hv|]. split; [exact Hcell|].
    intros Hsame. rewrite Hcell. f_equal.
    apply stored_small. exact Hsame.
Qed.

Lemma scale_upsamples_witness :
  exists b', scale corner (VInt 3) (Some (VInt 2)) = Ok b'
             /\ shape (patch b') = Sh2 4 6 /\ shape (mask b') = Sh2 4 6.
Proof.
  destruct (scale_upsamples corner Int 2 2 corner_rows Int 2 2 corner_rows
              3 2 eq_refl rect_corner eq_refl rect_corner
              ltac:(lia) ltac:(lia))
    as (b' & ? & ? & ? & ? & ? & ? & E & _ & _ & _ & _ & _
        & Hs1 & Hs2 & _).
  exists b'. split; [exact E|]. split; [exact Hs1 | exact Hs2].
Defined.

(** C2 at a failing input.  [scale(1)] on [Bug("wide", [[2**53 + 1]])]
    returns the cell 9007199254740992.0, not the source cell
    9007199254740993: [scale] asks [numpy.zeros] for no [dtype], so the
    result is a float64 array and the assignment rounds, where [margin]
    asks for [dtype = 'int']. *)
Theorem scale_rounds_wide_cells :
  Bug_init "wide" (AList wide_rows) None = Ok wide
  /\ cell wide_rows 0 0 = Some 9007199254740993
  /\ scale wide (VInt 1) None
     = Ok (mkBug "wide" (Arr2 Float 1 1 [[9007199254740992]])
             (Arr2 Float 1 1 [[9007199254740992]]))
  /\ forall b' dt (R C : nat) p',
       scale wide (VInt 1) (Some (VInt 1)) = Ok b' ->
       patch b' = Arr2 dt R C p' ->
       cell p' 0 0 <> cell wide_rows 0 0.
Proof.
  assert (scale wide (VInt 1) (Some (VInt 1))
          = Ok (mkBug "wide" (Arr2 Float 1 1 [[9007199254740992]])
                  (Arr2 Float 1 1 [[9007199254740992]]))) as E
    by (vm_compute; reflexivity).
  split; [reflexivity|]. split; [reflexivity|].
  split; [rewrite scale_default; exact E|].
  intros b' dt R C p' Hb' Hp'. rewrite E in Hb'. injection Hb' as <-.
  simpl in Hp'. injection Hp' as _ _ _ <-. vm_compute. discriminate.
Qed.

(** With scales of which one is not positive, and no negative
    dimension, both loops of [scale] are skipped. *)
Lemma scale_loops_skipped (self : Bug) (a b c d x y : Z) st :
  x <= 0 \/ y <= 0 ->
  for_each (xrange y) (fun i =>
    for_each (xrange x) (scale_step self a b c d x y i)) st = Ok st.
Proof.
  intros [Hx | Hy].
  - apply for_each_skip. intros i t. rewrite xrange_nonpos by exact Hx.
    reflexivity.
  - rewrite xrange_nonpos by exact Hy. reflexivity.
Qed.




(** ** Construction *)

Lemma same_length_Forall (n : nat) (rows : list (list Z)) :
  same_length n rows = true <-> Forall (fun row => length row = n) rows.
Proof.
  unfold same_length. rewrite forallb_forall, Forall_forall.
  split; intros H row Hin.
  - apply Nat.eqb_eq, H, list_elem_of_In, Hin.
  - apply Nat.eqb_eq, H, list_elem_of_In, Hin.
Qed.

Lemma numpy_array_succeeds (x : array_like) : succeeds (numpy_array x).
Proof.
  destruct x as [[|row rows]|a]; simpl; try (eexists; reflexivity).
  destruct (same_length (length row) rows); eexists; reflexivity.
Qed.

Lemma numpy_array_stored (rows : list (list Z)) (a : ndarray) :
  numpy_array (AList rows) = Ok a -> stored_as rows a.
Proof.
  intros Ha. destruct rows as [|row rows]; simpl in Ha.
  - split; [intros n Hne; contradiction|].
    intros Hrag. exfalso. apply Hrag. exists O. constructor.
  - destruct (same_length (length row) rows) eqn:Hsame.
    + apply same_length_Forall in Hsame. injection Ha as <-. split.
      * intros n _ Hn. inversion Hn as [|? ? Hrow Hrows]; subst.
        eexists. split; [reflexivity|]. split; [reflexivity|].
        constructor; [reflexivity | exact Hrows].
      * intros Hrag. exfalso. apply Hrag. exists (length row).
        constructor; [reflexivity | exact Hsame].
    + injection Ha as <-. split; [|intros _; split; reflexivity].
      intros n _ Hn. inversion Hn as [|? ? Hrow Hrows]; subst.
      apply same_length_Forall in Hrows. congruence.
Qed.

(** C7, as the code has it.  Construction never raises.  A non-empty
    nested list whose rows all have length [n], given as pattern or as
    mask, is stored as a two-axis array of shape (number of rows, n)
    holding these rows; a nested list whose rows differ in length is
    stored as a one-axis array of row objects. *)
Theorem construction_never_raises (nm : string) (p : array_like)
    (m : option array_like) :
  succeeds (Bug_init nm p m)
  /\ forall b,
       Bug_init nm p m = Ok b ->
       name b = nm
       /\ (forall rows, p = AList rows -> stored_as rows (patch b))
       /\ (forall rows, m = Some (AList rows) -> stored_as rows (mask b))
       /\ (m = None -> mask b = patch b).
Proof.
  unfold Bug_init. destruct (numpy_array_succeeds p) as [a Ha].
  rewrite Ha. simpl. destruct m as [m|].
  - destruct (numpy_array_succeeds m) as [a' Ha']. rewrite Ha'. simpl.
    split; [eexists; reflexivity|]. intros b [= <-]. simpl.
    split; [reflexivity|]. split; [|split; [|discriminate]].
    + intros rows ->. apply numpy_array_stored. exact Ha.
    + intros rows [= ->]. apply numpy_array_stored. exact Ha'.
  - split; [eexists; reflexivity|]. intros b [= <-]. simpl.
    split; [reflexivity|]. split; [|split; [discriminate | reflexivity]].
    intros rows ->. apply numpy_array_stored. exact Ha.
Qed.

Lemma ragged_rows_ragged :
  ~ exists n, Forall (fun row => length row = n) ragged_rows.
Proof.
  intros [n Hn]. inversion Hn as [|? ? H1 Hn']; subst.
  inversion Hn' as [|? ? H2 _]; subst. simpl in H2. discriminate.
Qed.

Lemma construction_never_raises_witness :
  exists b, Bug_init "ragged" (AList ragged_rows) None = Ok b
            /\ patch b = ArrObj ragged_rows
            /\ shape (patch b) = Sh1 2.
Proof.
  destruct (construction_never_raises "ragged" (AList ragged_rows) None)
    as [[b Hb] Hstored].
  exists b. split; [exact Hb|].
  destruct (Hstored b Hb) as (_ & Hp & _).
  exact (proj2 (Hp ragged_rows eq_refl) ragged_rows_ragged).
Defined.

(** C7 as stated fails: a pattern with rows of lengths 2 and 1 is
    accepted, and stored as an array with one axis. *)
Lemma ragged_pattern_accepted :
  Bug_init "ragged" (AList ragged_rows) None
  = Ok (mkBug "ragged" (ArrObj ragged_rows) (ArrObj ragged_rows))
  /\ ~ raises (Bug_init "ragged" (AList ragged_rows) None).
Proof.
  split; [reflexivity|]. intros [e He]. discriminate.
Qed.

(** ** rotate and the flips *)

Lemma rect_transpose (R C : nat) (cells : list (list Z)) :
  length cells = R -> rect C R ((fun k => column k cells) <$> seq 0 C).
Proof.
  intros Hlen. split.
  - rewrite length_fmap. apply length_seq.
  - apply Forall_fmap, Forall_forall. intros k _. simpl.
    unfold column. rewrite length_fmap. exact Hlen.
Qed.

Lemma cell_transpose (R C : nat) (cells : list (list Z)) (r c : nat) :
  rect R C cells -> (r < R)%nat -> (c < C)%nat ->
  cell ((fun k => column k cells) <$> seq 0 C) c r = cell cells r c.
Proof.
  intros Hrect Hr Hc.
  destruct (rect_cell_Some _ _ cells r c Hrect Hr Hc) as [v Hv].
  rewrite Hv. unfold cell in *. rewrite list_lookup_fmap.
  rewrite lookup_seq_lt by exact Hc. simpl.
  unfold column. rewrite list_lookup_fmap.
  destruct (cells !! r) as [row|]; [|discriminate]. simpl.
  rewrite Hv. reflexivity.
Qed.

Lemma cell_flip_cols (R C : nat) (cells : list (list Z)) (r c : nat) :
  rect R C cells -> (c < C)%nat ->
  cell (reverse <$> cells) r c = cell cells r (C - S c).
Proof.
  intros [_ Hrows] Hc. unfold cell. rewrite list_lookup_fmap.
  destruct (cells !! r) as [row|] eqn:E; [|reflexivity]. simpl.
  rewrite Forall_lookup in Hrows. specialize (Hrows _ _ E).
  rewrite reverse_lookup by lia. rewrite Hrows. reflexivity.
Qed.

Lemma rect_flip_cols (R C : nat) (cells : list (list Z)) :
  rect R C cells -> rect R C (reverse <$> cells).
Proof.
  intros [Hlen Hrows]. split; [rewrite length_fmap; exact Hlen|].
  apply Forall_fmap. eapply Forall_impl; [exact Hrows|].
  intros row Hrow. simpl. rewrite length_reverse. exact Hrow.
Qed.

(** C3.  [rotate(90)] is [hflip] applied to the Bug built from the
    transposed pattern and mask; transposition moves the cell (r, c) to
    (c, r); the result has the original's width as height and its height
    as width, for the pattern and for the mask. *)
Theorem rotate_90_transpose_hflip (b : Bug) :
  rotate b 90
  = (t ← Bug_init (name b) (AArr (transpose (patch b)))
                  (Some (AArr (transpose (mask b))));
     hflip t)
  /\ forall pdt (R C : nat) pcells mdt (MR MC : nat) mcells,
       patch b = Arr2 pdt R C pcells -> rect R C pcells ->
       mask b = Arr2 mdt MR MC mcells -> rect MR MC mcells ->
       (exists tp tm,
          transpose (patch b) = Arr2 pdt C R tp
          /\ transpose (mask b) = Arr2 mdt MC MR tm
          /\ (forall r c : nat, (r < R)%nat -> (c < C)%nat ->
                cell tp c r = cell pcells r c)
          /\ (forall r c : nat, (r < MR)%nat -> (c < MC)%nat ->
                cell tm c r = cell mcells r c))
       /\ exists b' rp rm,
            rotate b 90 = Ok b' /\ name b' = name b
            /\ patch b' = Arr2 pdt C R rp /\ rect C R rp
            /\ mask b' = Arr2 mdt MC MR rm /\ rect MC MR rm
            /\ h b' = w b /\ w b' = h b /\ mh b' = mw b /\ mw b' = mh b
            /\ (forall r c : nat, (r < R)%nat -> (c < C)%nat ->
                  cell rp c (R - 1 - r) = cell pcells r c)
            /\ (forall r c : nat, (r < MR)%nat -> (c < MC)%nat ->
                  cell rm c (MR - 1 - r) = cell mcells r c).
Proof.
  assert (rotate b 90
          = (t ← Bug_init (name b) (AArr (transpose (patch b)))
                          (Some (AArr (transpose (mask b))));
             hflip t)) as E
    by (rewrite rotate_equation_1; reflexivity).
  split; [exact E|].
  intros pdt R C pcells mdt MR MC mcells Hp Hpr Hm Hmr.
  pose proof (rect_transpose R C pcells (proj1 Hpr)) as Htp.
  pose proof (rect_transpose MR MC mcells (proj1 Hmr)) as Htm.
  split.
  - rewrite Hp, Hm. simpl. eexists _, _.
    split; [reflexivity|]. split; [reflexivity|].
    split; intros r c Hr Hc;
      [apply (cell_transpose R C) | apply (cell_transpose MR MC)];
      assumption.
  - rewrite E. unfold h, w, mh, mw. rewrite Hp, Hm. simpl.
    eexists _, _, _. split; [reflexivity|]. simpl.
    split; [reflexivity|]. split; [reflexivity|].
    split; [apply rect_flip_cols; exact Htp|]. split; [reflexivity|].
    split; [apply rect_flip_cols; exact Htm|].
    do 4 (split; [reflexivity|]).
    split; intros r c Hr Hc.
    + rewrite (cell_flip_cols C R) by (exact Htp || lia).
      replace (R - S (R - 1 - r))%nat with r by lia.
      apply (cell_transpose R C); assumption.
    + rewrite (cell_flip_cols MC MR) by (exact Htm || lia).
      replace (MR - S (MR - 1 - r))%nat with r by lia.
      apply (cell_transpose MR MC); assumption.
Qed.

Lemma rotate_90_transpose_hflip_witness :
  exists b', rotate corner 90 = Ok b' /\ h b' = w corner /\ w b' = h corner.
Proof.
  destruct (rotate_90_transpose_hflip corner) as [_ H].
  destruct (H Int 2%nat 2%nat corner_rows Int 2%nat 2%nat corner_rows
              eq_refl rect_corner eq_refl rect_corner)
    as (_ & b' & rp & rm & E & _ & _ & _ & _ & _ & Hh & Hw & _).
  exists b'. split; [exact E|]. split; [exact Hh | exact Hw].
Defined.

(** C8.  [rotate(0)] returns the receiver itself, and so does
    [rotate(360)], whose angle reduces to 0 modulo 360. *)
Theorem rotate_identity (b : Bug) :
  rotate b 0 = Ok b /\ rotate b 360 = Ok b.
Proof.
  split; rewrite rotate_equation_1; reflexivity.
Qed.

(** C10.  [hflip] then [vflip] and [vflip] then [hflip] give the same
    result: the same name, pattern and mask; on a Bug with two-axis
    pattern and mask both orders do return a Bug. *)
Theorem flips_commute (b : Bug) :
  (hflip b ≫= vflip) = (vflip b ≫= hflip)
  /\ forall pdt (R C : nat) pcells mdt (MR MC : nat) mcells,
       patch b = Arr2 pdt R C pcells -> mask b = Arr2 mdt MR MC mcells ->
       exists b1 b2,
         hflip b ≫= vflip = Ok b1 /\ vflip b ≫= hflip = Ok b2
         /\ name b1 = name b2 /\ patch b1 = patch b2 /\ mask b1 = mask b2.
Proof.
  assert ((hflip b ≫= vflip) = (vflip b ≫= hflip)) as E.
  { destruct b as [nm p m]. unfold hflip, vflip, Bug_init.
    destruct p, m; simpl; rewrite ?fmap_reverse; reflexivity. }
  split; [exact E|].
  intros pdt R C pcells mdt MR MC mcells Hp Hm.
  rewrite <- E. unfold hflip, vflip, Bug_init. rewrite Hp, Hm. simpl.
  eexists _, _. split; [reflexivity|]. split; [reflexivity|]. auto.
Qed.

Lemma flips_commute_witness :
  exists b1 b2,
    hflip corner ≫= vflip = Ok b1 /\ vflip corner ≫= hflip = Ok b2
    /\ name b1 = name b2 /\ patch b1 = patch b2 /\ mask b1 = mask b2.
Proof.
  destruct (flips_commute corner) as [_ H].
  exact (H Int 2%nat 2%nat corner_rows Int 2%nat 2%nat corner_rows
           eq_refl eq_refl).
Defined.

(** ** What the transforms keep *)

Lemma grid_flip_cols (a : ndarray) :
  grid a -> exists a', flip_cols a = Ok a' /\ grid a'.
Proof.
  intros (dt & R & C & cells & -> & Hrect & Hnn). simpl.
  eexists. split; [reflexivity|]. exists dt, R, C, (reverse <$> cells).
  split; [reflexivity|]. split; [apply rect_flip_cols; exact Hrect|].
  intros r c v Hv.
  destruct (rect_cell_lt _ _ _ _ _ _ (rect_flip_cols _ _ _ Hrect) Hv)
    as [_ Hc].
  rewrite (cell_flip_cols R C) in Hv by assumption. eapply Hnn, Hv.
Qed.

Lemma grid_flip_rows (a : ndarray) : grid a -> grid (flip_rows a).
Proof.
  intros (dt & R & C & cells & -> & [Hlen Hrows] & Hnn). simpl.
  exists dt, R, C, (reverse cells). split; [reflexivity|]. split.
  - split; [rewrite length_reverse; exact Hlen|].
    apply Forall_reverse. exact Hrows.
  - intros r c v Hv. unfold cell in Hv.
    destruct (reverse cells !! r) as [row|] eqn:E; [|discriminate].
    pose proof (lookup_lt_Some _ _ _ E) as Hr.
    rewrite length_reverse in Hr. rewrite reverse_lookup in E by exact Hr.
    apply (Hnn (length cells - S r)%nat c v). unfold cell. rewrite E.
    exact Hv.
Qed.

Lemma grid_transpose (a : ndarray) : grid a -> grid (transpose a).
Proof.
  intros (dt & R & C & cells & -> & Hrect & Hnn). simpl.
  pose proof (rect_transpose R C cells (proj1 Hrect)) as Ht.
  eexists dt, C, R, _. split; [reflexivity|]. split; [exact Ht|].
  intros c r v Hv. destruct (rect_cell_lt _ _ _ _ _ _ Ht Hv) as [Hc Hr].
  rewrite (cell_transpose R C) in Hv by assumption. eapply Hnn, Hv.
Qed.

Lemma hflip_grids (b b' : Bug) : grids b -> hflip b = Ok b' -> grids b'.
Proof.
  intros [Hp Hm] E. unfold hflip in E.
  destruct (grid_flip_cols _ Hp) as (p' & Ep & Hp').
  destruct (grid_flip_cols _ Hm) as (m' & Em & Hm').
  rewrite Ep, Em in E. simpl in E. injection E as <-. split; assumption.
Qed.

Lemma vflip_grids (b b' : Bug) : grids b -> vflip b = Ok b' -> grids b'.
Proof.
  intros [Hp Hm] E. unfold vflip in E. simpl in E. injection E as <-.
  split; apply grid_flip_rows; assumption.
Qed.

Lemma rotate_grids (b : Bug) (angle : Z) (b' : Bug) :
  grids b -> rotate b angle = Ok b' -> grids b'.
Proof.
  revert b'. funelim (rotate b angle); intros b' Hb E;
    try discriminate.
  - injection E as <-. exact Hb.
  - simpl in E. eapply hflip_grids; [|exact E].
    split; simpl; apply grid_transpose; apply Hb.
  - eapply H; [|exact E].
    eapply vflip_grids; [|eassumption]. eapply hflip_grids; eassumption.
Qed.

Lemma scale_grids (b : Bug) (x y : Z) (b' : Bug) :
  grids b -> 0 < x -> 0 < y ->
  scale b (VInt x) (Some (VInt y)) = Ok b' -> grids b'.
Proof.
  intros [(pdt & R & C & pcells & Hp & Hpr & Hpn)
          (mdt & MR & MC & mcells & Hm & Hmr & Hmn)] Hx Hy E.
  destruct (scale_positive b pdt R C pcells mdt MR MC mcells x y
              Hp Hpr Hm Hmr Hx Hy) as (p' & m' & E' & Hrp & Hrm & Hcp & Hcm).
  rewrite E' in E. injection E as <-. split; simpl.
  - eexists _, _, _, p'. split; [reflexivity|]. split; [exact Hrp|].
    intros r c v Hv. destruct (rect_cell_lt _ _ _ _ _ _ Hrp Hv) as [Hr Hc].
    rewrite Hcp in Hv by nia.
    exact (nonneg_as_float64 pdt pcells Hpn _ _ _ Hv).
  - eexists _, _, _, m'. split; [reflexivity|]. split; [exact Hrm|].
    intros r c v Hv. destruct (rect_cell_lt _ _ _ _ _ _ Hrm Hv) as [Hr Hc].
    rewrite Hcm in Hv by nia.
    exact (nonneg_as_float64 mdt mcells Hmn _ _ _ Hv).
Qed.

Lemma margin_grids (b : Bug) (m : Z) (b' : Bug) :
  grids b -> dtype_of (patch b) = Some Int -> 0 <= m ->
  margin b m = Ok b' -> grids b'.
Proof.
  intros [(pdt & R & C & pcells & Hp & Hpr & Hpn) _] Hdt Hm E.
  rewrite Hp in Hdt. simpl in Hdt. injection Hdt as ->.
  destruct (margin_nonneg b R C pcells m Hp Hpr Hm)
    as (cells & E' & Hr & Hn & _).
  rewrite E' in E. injection E as <-. split; simpl.
  - rewrite Hp. exists Int, R, C, pcells. auto.
  - eexists _, _, _, cells. split; [reflexivity|]. auto.
Qed.

Lemma total_mask_grids (b b' : Bug) :
  grids b -> total_mask b = Ok b' -> grids b'.
Proof.
  intros [Hp (mdt & MR & MC & mcells & Hm & _)] E.
  unfold total_mask in E. rewrite Hm in E. simpl in E.
  rewrite !(proj2 (Z.ltb_ge _ 0)) in E by lia. simpl in E.
  injection E as <-. split; [exact Hp|]. simpl.
  eexists _, _, _, _. split; [reflexivity|].
  split; [apply rect_replicate|].
  intros r c v Hv. apply cell_replicate in Hv as ->. lia.
Qed.

Lemma fit_mask_grids (b b' : Bug) :
  grids b -> fit_mask b = Ok b' -> grids b'.
Proof.
  intros [Hp _] E. unfold fit_mask in E. simpl in E. injection E as <-.
  split; exact Hp.
Qed.

(** Every transform keeps the pattern and the mask two-axis arrays
    without negative values. *)
Lemma transforms_keep_grids (b : Bug) :
  grids b ->
  (forall b', hflip b = Ok b' -> grids b')
  /\ (forall b', vflip b = Ok b' -> grids b')
  /\ (forall angle b', rotate b angle = Ok b' -> grids b')
  /\ (forall x y b', 0 < x -> 0 < y ->
        scale b (VInt x) (Some (VInt y)) = Ok b' -> grids b')
  /\ (forall m b', dtype_of (patch b) = Some Int -> 0 <= m ->
        margin b m = Ok b' -> grids b')
  /\ (forall b', total_mask b = Ok b' -> grids b')
  /\ (forall b', fit_mask b = Ok b' -> grids b').
Proof.
  intros Hb.
  split; [|split; [|split; [|split; [|split; [|split]]]]].
  - intros b'. apply hflip_grids. exact Hb.
  - intros b'. apply vflip_grids. exact Hb.
  - intros angle b'. apply rotate_grids. exact Hb.
  - intros x y b'. apply scale_grids. exact Hb.
  - intros m b'. apply margin_grids. exact Hb.
  - intros b'. apply total_mask_grids. exact Hb.
  - intros b'. apply fit_mask_grids. exact Hb.
Qed.

(** The element type is integer after [hflip], [vflip], [rotate],
    [margin] and [fit_mask] of an integer Bug, and float after [scale]
    (pattern and mask) and [total_mask] (mask). *)
Lemma scale_dtype (b : Bug) pdt (R C : nat) pcells mdt (MR MC : nat) mcells
    (x y : Z) (b' : Bug) :
  patch b = Arr2 pdt R C pcells -> rect R C pcells ->
  mask b = Arr2 mdt MR MC mcells -> rect MR MC mcells ->
  0 < x -> 0 < y ->
  scale b (VInt x) (Some (VInt y)) = Ok b' ->
  dtype_of (patch b') = Some Float /\ dtype_of (mask b') = Some Float.
Proof.
  intros Hp Hpr Hm Hmr Hx Hy E.
  destruct (scale_positive b pdt R C pcells mdt MR MC mcells x y
              Hp Hpr Hm Hmr Hx Hy) as (p' & m' & E' & _).
  rewrite E' in E. injection E as <-. split; reflexivity.
Qed.

Lemma total_mask_dtype (b : Bug) mdt (MR MC : nat) mcells (b' : Bug) :
  mask b = Arr2 mdt MR MC mcells -> total_mask b = Ok b' ->
  dtype_of (mask b') = Some Float.
Proof.
  intros Hm E. unfold total_mask in E. rewrite Hm in E. simpl in E.
  rewrite !(proj2 (Z.ltb_ge _ 0)) in E by lia. simpl in E.
  injection E as <-. reflexivity.
Qed.

(** [|=] with a float operand is a TypeError: [margin] on a Bug whose
    pattern has element type float fails at its first iteration. *)
Lemma margin_float_pattern (b : Bug) (R C : nat) cells (m : Z) :
  patch b = Arr2 Float R C cells -> 0 <= m -> margin b m = Err TypeError.
Proof.
  intros Hp Hm. unfold margin. rewrite Hp. simpl.
  rewrite !(proj2 (Z.ltb_ge _ 0)) by lia. simpl.
  unfold xrange. rewrite seqZ_cons by lia. simpl.
  unfold ior_slice, update_slice, slice_indices. simpl. reflexivity.
Qed.

(** ** Element types *)

(** C4 at a failing input.  [scale(1)] and [total_mask()] on the
    integer Bug [[1]] return arrays of element type float, where
    [margin] asks [numpy.zeros] for [dtype = 'int']; a scaled Bug can
    then no longer be given a margin. *)
Theorem scale_yields_floats :
  scale dot (VInt 1) None
  = Ok (mkBug "dot" (Arr2 Float 1 1 [[1]]) (Arr2 Float 1 1 [[1]]))
  /\ total_mask dot
     = Ok (mkBug "dot" (Arr2 Int 1 1 [[1]]) (Arr2 Float 1 1 [[1]]))
  /\ (scale dot (VInt 1) None ≫= fun b => margin b 0) = Err TypeError.
Proof.
  split; [|split]; vm_compute; reflexivity.
Qed.

(** * Further properties *)

(** ** Arrays are determined by their cells *)

Lemma cells_ext (R C : nat) (a b : list (list Z)) :
  rect R C a -> rect R C b ->
  (forall r c : nat, (r < R)%nat -> (c < C)%nat -> cell a r c = cell b r c) ->
  a = b.
Proof.
  intros [Hla Hra] [Hlb Hrb] Hcells. apply list_eq. intros r.
  destruct (decide (r < R)%nat) as [Hr | Hr].
  - destruct (lookup_lt_is_Some_2 a r ltac:(lia)) as [ra Ea].
    destruct (lookup_lt_is_Some_2 b r ltac:(lia)) as [rb Eb].
    rewrite Ea, Eb. f_equal. apply list_eq. intros c.
    rewrite Forall_lookup in Hra, Hrb.
    pose proof (Hra _ _ Ea) as Hca. pose proof (Hrb _ _ Eb) as Hcb.
    destruct (decide (c < C)%nat) as [Hc | Hc].
    + specialize (Hcells r c Hr Hc). unfold cell in Hcells.
      rewrite Ea, Eb in Hcells. exact Hcells.
    + rewrite !lookup_ge_None_2 by lia. reflexivity.
  - rewrite !lookup_ge_None_2 by lia. reflexivity.
Qed.

Lemma rect_flip_rows (R C : nat) (cells : list (list Z)) :
  rect R C cells -> rect R C (reverse cells).
Proof.
  intros [Hlen Hrows]. split; [rewrite length_reverse; exact Hlen|].
  apply Forall_reverse. exact Hrows.
Qed.

Lemma cell_flip_rows (R C : nat) (cells : list (list Z)) (r c : nat) :
  rect R C cells -> (r < R)%nat ->
  cell (reverse cells) r c = cell cells (R - S r) c.
Proof.
  intros [Hlen _] Hr. unfold cell.
  rewrite reverse_lookup by lia. rewrite Hlen. reflexivity.
Qed.

Lemma flip_cols_involutive (cells : list (list Z)) :
  reverse <$> (reverse <$> cells) = cells.
Proof.
  rewrite <- list_fmap_compose. rewrite <- (list_fmap_id cells) at 2.
  apply list_fmap_ext. intros _ row _. simpl. apply reverse_involutive.
Qed.

(** Transposition turns a flip of the columns into a flip of the rows,
    and back. *)
Lemma transpose_flip_cols (R C : nat) (cells : list (list Z)) :
  rect R C cells ->
  (fun k => column k (reverse <$> cells)) <$> seq 0 C
  = reverse ((fun k => column k cells) <$> seq 0 C).
Proof.
  intros Hrect.
  pose proof (rect_transpose R C cells (proj1 Hrect)) as Ht.
  pose proof (rect_flip_cols R C cells Hrect) as Hf.
  apply (cells_ext C R).
  - apply rect_transpose. apply Hf.
  - apply rect_flip_rows. exact Ht.
  - intros c r Hc Hr.
    rewrite (cell_transpose R C) by assumption.
    rewrite (cell_flip_cols R C) by assumption.
    rewrite (cell_flip_rows C R) by assumption.
    rewrite (cell_transpose R C) by (assumption || lia). reflexivity.
Qed.

Lemma transpose_flip_rows (R C : nat) (cells : list (list Z)) :
  rect R C cells ->
  (fun k => column k (reverse cells)) <$> seq 0 C
  = reverse <$> ((fun k => column k cells) <$> seq 0 C).
Proof.
  intros Hrect.
  pose proof (rect_transpose R C cells (proj1 Hrect)) as Ht.
  pose proof (rect_flip_rows R C cells Hrect) as Hf.
  apply (cells_ext C R).
  - apply rect_transpose. apply Hf.
  - apply rect_flip_cols. exact Ht.
  - intros c r Hc Hr.
    rewrite (cell_transpose R C) by assumption.
    rewrite (cell_flip_rows R C) by assumption.
    rewrite (cell_flip_cols C R) by assumption.
    rewrite (cell_transpose R C) by (assumption || lia). reflexivity.
Qed.

Lemma transpose_involutive (R C : nat) (cells : list (list Z)) :
  rect R C cells ->
  (fun k => column k ((fun k => column k cells) <$> seq 0 C)) <$> seq 0 R
  = cells.
Proof.
  intros Hrect.
  pose proof (rect_transpose R C cells (proj1 Hrect)) as Ht.
  apply (cells_ext R C).
  - apply rect_transpose. apply Ht.
  - exact Hrect.
  - intros r c Hr Hc.
    rewrite (cell_transpose C R) by assumption.
    apply (cell_transpose R C); assumption.
Qed.

(** ** The flips *)

(** X1.  On a Bug with two-axis pattern and mask, [hflip] returns a Bug
    of the same name, shapes and element types whose cell (r, c) is the
    receiver's cell (r, C - 1 - c), in the pattern and in the mask. *)
Theorem hflip_mirrors (b : Bug) pdt (R C : nat) pcells mdt (MR MC : nat)
    mcells :
  patch b = Arr2 pdt R C pcells -> rect R C pcells ->
  mask b = Arr2 mdt MR MC mcells -> rect MR MC mcells ->
  exists p' m',
    hflip b = Ok (mkBug (name b) (Arr2 pdt R C p') (Arr2 mdt MR MC m'))
    /\ rect R C p' /\ rect MR MC m'
    /\ (forall r c : nat, (r < R)%nat -> (c < C)%nat ->
          cell p' r c = cell pcells r (C - 1 - c))
    /\ (forall r c : nat, (r < MR)%nat -> (c < MC)%nat ->
          cell m' r c = cell mcells r (MC - 1 - c)).
Proof.
  intros Hp Hpr Hm Hmr. unfold hflip. rewrite Hp, Hm. simpl.
  eexists _, _. split; [reflexivity|].
  split; [apply rect_flip_cols; exact Hpr|].
  split; [apply rect_flip_cols; exact Hmr|].
  split; intros r c Hr Hc.
  - rewrite (cell_flip_cols R C) by assumption. f_equal. lia.
  - rewrite (cell_flip_cols MR MC) by assumption. f_equal. lia.
Qed.

Lemma hflip_mirrors_witness :
  exists b', hflip corner = Ok b' /\ name b' = "corner"
             /\ shape (patch b') = Sh2 2 2.
Proof.
  destruct (hflip_mirrors corner Int 2 2 corner_rows Int 2 2 corner_rows
              eq_refl rect_corner eq_refl rect_corner)
    as (p' & m' & E & _).
  eexists. split; [exact E|]. split; reflexivity.
Defined.

(** X2.  On a Bug with two-axis pattern and mask, [vflip] returns a Bug
    of the same name, shapes and element types whose cell (r, c) is the
    receiver's cell (R - 1 - r, c), in the pattern and in the mask. *)
Theorem vflip_mirrors (b : Bug) pdt (R C : nat) pcells mdt (MR MC : nat)
    mcells :
  patch b = Arr2 pdt R C pcells -> rect R C pcells ->
  mask b = Arr2 mdt MR MC mcells -> rect MR MC mcells ->
  exists p' m',
    vflip b = Ok (mkBug (name b) (Arr2 pdt R C p') (Arr2 mdt MR MC m'))
    /\ rect R C p' /\ rect MR MC m'
    /\ (forall r c : nat, (r < R)%nat -> (c < C)%nat ->
          cell p' r c = cell pcells (R - 1 - r) c)
    /\ (forall r c : nat, (r < MR)%nat -> (c < MC)%nat ->
          cell m' r c = cell mcells (MR - 1 - r) c).
Proof.
  intros Hp Hpr Hm Hmr. unfold vflip. rewrite Hp, Hm. simpl.
  eexists _, _. split; [reflexivity|].
  split; [apply rect_flip_rows; exact Hpr|].
  split; [apply rect_flip_rows; exact Hmr|].
  split; intros r c Hr Hc.
  - rewrite (cell_flip_rows R C) by assumption. f_equal. lia.
  - rewrite (cell_flip_rows MR MC) by assumption. f_equal. lia.
Qed.

Lemma vflip_mirrors_witness :
  exists b', vflip corner = Ok b' /\ name b' = "corner"
             /\ shape (patch b') = Sh2 2 2.
Proof.
  destruct (vflip_mirrors corner Int 2 2 corner_rows Int 2 2 corner_rows
              eq_refl rect_corner eq_refl rect_corner)
    as (p' & m' & E & _).
  eexists. split; [exact E|]. split; reflexivity.
Defined.

Lemma flip_rows_involutive (a : ndarray) : flip_rows (flip_rows a) = a.
Proof. destruct a; simpl; rewrite reverse_involutive; reflexivity. Qed.

(** X3.  Each flip undoes itself: [vflip] twice returns a Bug equal to
    the receiver, for every Bug, and so does [hflip] twice when pattern
    and mask have two axes. *)
Theorem flips_involutive (b : Bug) :
  (vflip b ≫= vflip) = Ok b
  /\ forall pdt (R C : nat) pcells mdt (MR MC : nat) mcells,
       patch b = Arr2 pdt R C pcells -> mask b = Arr2 mdt MR MC mcells ->
       (hflip b ≫= hflip) = Ok b.
Proof.
  destruct b as [nm p m]. split.
  - unfold vflip. simpl. rewrite !flip_rows_involutive. reflexivity.
  - intros pdt R C pcells mdt MR MC mcells Hp Hm. simpl in Hp, Hm. subst.
    unfold hflip. simpl. rewrite !flip_cols_involutive. reflexivity.
Qed.

Lemma flips_involutive_witness : (hflip corner ≫= hflip) = Ok corner.
Proof.
  exact (proj2 (flips_involutive corner) Int 2%nat 2%nat corner_rows
           Int 2%nat 2%nat corner_rows eq_refl eq_refl).
Defined.

(** ** rotate at every angle *)

Lemma rotate_reduced (b : Bug) (angle : Z) :
  rotate b angle = rotate_body b (angle mod 360).
Proof.
  unfold rotate_body. funelim (rotate b angle);
    repeat match goal with
           | E : _ = true |- _ => rewrite E; clear dependent E
           | E : _ = false |- _ => rewrite E; clear dependent E
           end; simpl negb; cbv iota;
    repeat match goal with
           | E : hflip _ = _ |- _ => rewrite E; clear E; cbn [mbind res_bind]
           | E : vflip _ = _ |- _ => rewrite E; clear E; cbn [mbind res_bind]
           end; reflexivity.
Qed.

Lemma valid_angle_cases (a : Z) :
  valid_angle a = true <-> a = 0 \/ a = 90 \/ a = 180 \/ a = 270.
Proof. unfold valid_angle. lia. Qed.

Lemma Bug_init_arrays (nm : string) (p m : ndarray) :
  Bug_init nm (AArr p) (Some (AArr m)) = Ok (mkBug nm p m).
Proof. reflexivity. Qed.

Lemma hflip_not_ValueError (b : Bug) : hflip b <> Err ValueError.
Proof.
  unfold hflip. destruct (patch b), (mask b); simpl; discriminate.
Qed.

(** X4.  [rotate] raises a ValueError exactly when the angle is not
    congruent to 0, 90, 180 or 270 modulo 360, whatever the Bug. *)
Theorem rotate_rejects_other_angles (b : Bug) (angle : Z) :
  rotate b angle = Err ValueError
  <-> ~ (angle mod 360 = 0 \/ angle mod 360 = 90
         \/ angle mod 360 = 180 \/ angle mod 360 = 270).
Proof.
  rewrite <- valid_angle_cases, rotate_reduced. unfold rotate_body.
  destruct (valid_angle (angle mod 360)) eqn:Hv; simpl.
  - split; [|intros Hn; exfalso; apply Hn; reflexivity].
    intros E. exfalso. apply valid_angle_cases in Hv.
    destruct Hv as [Ha | [Ha | [Ha | Ha]]]; rewrite Ha in E; simpl in E.
    + discriminate.
    + exact (hflip_not_ValueError _ E).
    + destruct (hflip b) as [b1|e] eqn:E1; simpl in E;
        [|injection E as ->; exact (hflip_not_ValueError _ E1)].
      rewrite rotate_reduced in E. discriminate.
    + destruct (hflip b) as [b1|e] eqn:E1; simpl in E;
        [|injection E as ->; exact (hflip_not_ValueError _ E1)].
      rewrite rotate_reduced in E. simpl in E.
      exact (hflip_not_ValueError _ E).
  - split; [intros _ Hn; discriminate | reflexivity].
Qed.

(** X5.  [rotate] depends on the angle modulo 360 only: adding any
    multiple of 360, negative ones too, gives the same result. *)
Theorem rotate_periodic (b : Bug) (angle k : Z) :
  rotate b (angle + 360 * k) = rotate b angle.
Proof.
  rewrite !rotate_reduced. f_equal.
  rewrite Z.mul_comm. apply Z_mod_plus_full.
Qed.

Lemma rotate_90_arrays (b : Bug) :
  rotate b 90 = hflip (mkBug (name b) (transpose (patch b))
                             (transpose (mask b))).
Proof. rewrite rotate_reduced. reflexivity. Qed.

Lemma rotate_180_flips (b : Bug) : rotate b 180 = (hflip b ≫= vflip).
Proof.
  rewrite rotate_reduced. unfold rotate_body. simpl.
  destruct (hflip b) as [b1|e]; simpl; [|reflexivity].
  rewrite rotate_reduced. reflexivity.
Qed.

Lemma rotate_270_half_quarter (b : Bug) :
  rotate b 270 = (rotate b 180 ≫= fun b' => rotate b' 90).
Proof.
  rewrite rotate_180_flips, rotate_reduced. unfold rotate_body. simpl.
  destruct (hflip b) as [b1|e]; reflexivity.
Qed.

Lemma rotate_90_turn (b : Bug) pdt (R C : nat) pcells mdt (MR MC : nat)
    mcells :
  patch b = Arr2 pdt R C pcells -> mask b = Arr2 mdt MR MC mcells ->
  rotate b 90 = Ok (mkBug (name b) (turn (patch b)) (turn (mask b))).
Proof.
  intros Hp Hm. rewrite rotate_90_arrays, Hp, Hm. reflexivity.
Qed.

Lemma rect_turn_cells (R C : nat) (cells : list (list Z)) :
  rect R C cells -> rect C R (turn_cells C cells).
Proof.
  intros Hrect. apply rect_flip_cols, rect_transpose, Hrect.
Qed.

Lemma cell_turn_cells (R C : nat) (cells : list (list Z)) (r c : nat) :
  rect R C cells -> (r < R)%nat -> (c < C)%nat ->
  cell (turn_cells C cells) c (R - 1 - r) = cell cells r c.
Proof.
  intros Hrect Hr Hc. unfold turn_cells.
  rewrite (cell_flip_cols C R)
    by (apply rect_transpose, Hrect || lia).
  replace (R - S (R - 1 - r))%nat with r by lia.
  apply (cell_transpose R C); assumption.
Qed.

(** Two quarter turns of the cells are a flip of the rows and of the
    columns. *)
Lemma turn_cells_twice (R C : nat) (cells : list (list Z)) :
  rect R C cells ->
  turn_cells R (turn_cells C cells) = reverse (reverse <$> cells).
Proof.
  intros Hrect. unfold turn_cells.
  rewrite (transpose_flip_cols C R)
    by (apply rect_transpose, Hrect).
  rewrite (transpose_involutive R C) by exact Hrect.
  apply fmap_reverse.
Qed.

Lemma half_turn_twice (cells : list (list Z)) :
  reverse (reverse <$> reverse (reverse <$> cells)) = cells.
Proof.
  rewrite fmap_reverse, reverse_involutive. apply flip_cols_involutive.
Qed.

(** X6.  [rotate(180)] is [hflip] followed by [vflip]; on a Bug with
    two-axis pattern and mask it keeps name, shapes and element types,
    and its cell (R - 1 - r, C - 1 - c) is the receiver's cell (r, c). *)
Theorem rotate_180_point_reflection (b : Bug) :
  rotate b 180 = (hflip b ≫= vflip)
  /\ forall pdt (R C : nat) pcells mdt (MR MC : nat) mcells,
       patch b = Arr2 pdt R C pcells -> rect R C pcells ->
       mask b = Arr2 mdt MR MC mcells -> rect MR MC mcells ->
       exists p' m',
         rotate b 180
         = Ok (mkBug (name b) (Arr2 pdt R C p') (Arr2 mdt MR MC m'))
         /\ rect R C p' /\ rect MR MC m'
         /\ (forall r c : nat, (r < R)%nat -> (c < C)%nat ->
               cell p' (R - 1 - r) (C - 1 - c) = cell pcells r c)
         /\ (forall r c : nat, (r < MR)%nat -> (c < MC)%nat ->
               cell m' (MR - 1 - r) (MC - 1 - c) = cell mcells r c).
Proof.
  split; [apply rotate_180_flips|].
  intros pdt R C pcells mdt MR MC mcells Hp Hpr Hm Hmr.
  rewrite rotate_180_flips. unfold hflip. rewrite Hp, Hm. simpl.
  eexists _, _. split; [reflexivity|].
  split; [apply rect_flip_rows, rect_flip_cols, Hpr|].
  split; [apply rect_flip_rows, rect_flip_cols, Hmr|].
  split; intros r c Hr Hc.
  - rewrite (cell_flip_rows R C) by (apply rect_flip_cols, Hpr || lia).
    rewrite (cell_flip_cols R C) by (assumption || lia). f_equal; lia.
  - rewrite (cell_flip_rows MR MC) by (apply rect_flip_cols, Hmr || lia).
    rewrite (cell_flip_cols MR MC) by (assumption || lia). f_equal; lia.
Qed.

Lemma rotate_180_point_reflection_witness :
  exists b', rotate corner 180 = Ok b' /\ shape (patch b') = Sh2 2 2.
Proof.
  destruct (proj2 (rotate_180_point_reflection corner)
              Int 2%nat 2%nat corner_rows Int 2%nat 2%nat corner_rows
              eq_refl rect_corner eq_refl rect_corner)
    as (p' & m' & E & _).
  eexists. split; [exact E | reflexivity].
Defined.

(** X7.  [rotate(270)] is [rotate(180)] followed by [rotate(90)]; on a
    Bug with two-axis pattern and mask it exchanges height and width,
    and its cell (C - 1 - c, r) is the receiver's cell (r, c). *)
Theorem rotate_270_cells (b : Bug) :
  rotate b 270 = (rotate b 180 ≫= fun b' => rotate b' 90)
  /\ forall pdt (R C : nat) pcells mdt (MR MC : nat) mcells,
       patch b = Arr2 pdt R C pcells -> rect R C pcells ->
       mask b = Arr2 mdt MR MC mcells -> rect MR MC mcells ->
       exists p' m',
         rotate b 270
         = Ok (mkBug (name b) (Arr2 pdt C R p') (Arr2 mdt MC MR m'))
         /\ rect C R p' /\ rect MC MR m'
         /\ (forall r c : nat, (r < R)%nat -> (c < C)%nat ->
               cell p' (C - 1 - c) r = cell pcells r c)
         /\ (forall r c : nat, (r < MR)%nat -> (c < MC)%nat ->
               cell m' (MC - 1 - c) r = cell mcells r c).
Proof.
  split; [apply rotate_270_half_quarter|].
  intros pdt R C pcells mdt MR MC mcells Hp Hpr Hm Hmr.
  rewrite rotate_270_half_quarter, rotate_180_flips.
  unfold hflip. rewrite Hp, Hm. simpl.
  rewrite rotate_90_arrays. simpl.
  pose proof (rect_flip_rows _ _ _ (rect_flip_cols _ _ _ Hpr)) as Hp2.
  pose proof (rect_flip_rows _ _ _ (rect_flip_cols _ _ _ Hmr)) as Hm2.
  eexists _, _. split; [reflexivity|].
  split; [apply (rect_turn_cells R C), Hp2|].
  split; [apply (rect_turn_cells MR MC), Hm2|].
  split; intros r c Hr Hc.
  - pose proof (cell_turn_cells R C _ (R - 1 - r) (C - 1 - c) Hp2
                  ltac:(lia) ltac:(lia)) as E.
    unfold turn_cells in E.
    replace (R - 1 - (R - 1 - r))%nat with r in E by lia. rewrite E.
    rewrite (cell_flip_rows R C) by (apply rect_flip_cols, Hpr || lia).
    rewrite (cell_flip_cols R C) by (assumption || lia). f_equal; lia.
  - pose proof (cell_turn_cells MR MC _ (MR - 1 - r) (MC - 1 - c) Hm2
                  ltac:(lia) ltac:(lia)) as E.
    unfold turn_cells in E.
    replace (MR - 1 - (MR - 1 - r))%nat with r in E by lia. rewrite E.
    rewrite (cell_flip_rows MR MC) by (apply rect_flip_cols, Hmr || lia).
    rewrite (cell_flip_cols MR MC) by (assumption || lia). f_equal; lia.
Qed.

Lemma rotate_270_cells_witness :
  exists b', rotate corner 270 = Ok b' /\ shape (patch b') = Sh2 2 2.
Proof.
  destruct (proj2 (rotate_270_cells corner)
              Int 2%nat 2%nat corner_rows Int 2%nat 2%nat corner_rows
              eq_refl rect_corner eq_refl rect_corner)
    as (p' & m' & E & _).
  eexists. split; [exact E | reflexivity].
Defined.

(** ** Composition of rotations *)

Lemma bind_ret_res {A} (m : res A) : (m ≫= Ok) = m.
Proof. destruct m; reflexivity. Qed.

Lemma bind_assoc_res {A B C} (m : res A) (f : A -> res B) (g : B -> res C) :
  ((m ≫= f) ≫= g) = (m ≫= fun a => f a ≫= g).
Proof. destruct m; reflexivity. Qed.

Lemma quarter_turns_add (n k : nat) (b : Bug) :
  quarter_turns (n + k) b = (quarter_turns n b ≫= quarter_turns k).
Proof.
  revert b. induction n as [|n IH]; intros b; simpl; [reflexivity|].
  rewrite bind_assoc_res. destruct (rotate b 90) as [b'|e]; simpl;
    [apply IH | reflexivity].
Qed.

Lemma rect_bug_turn (b : Bug) :
  rect_bug b ->
  rotate b 90 = Ok (mkBug (name b) (turn (patch b)) (turn (mask b)))
  /\ rect_bug (mkBug (name b) (turn (patch b)) (turn (mask b))).
Proof.
  intros [(pdt & R & C & pcells & Hp & Hpr) (mdt & MR & MC & mcells & Hm & Hmr)].
  split; [eapply rotate_90_turn; eassumption|].
  rewrite Hp, Hm. split; simpl.
  - exists pdt, C, R, (turn_cells C pcells).
    split; [reflexivity | apply (rect_turn_cells R C), Hpr].
  - exists mdt, MC, MR, (turn_cells MC mcells).
    split; [reflexivity | apply (rect_turn_cells MR MC), Hmr].
Qed.

Lemma quarter_turns_rect (n : nat) (b : Bug) :
  rect_bug b -> exists b', quarter_turns n b = Ok b' /\ rect_bug b'.
Proof.
  revert b. induction n as [|n IH]; intros b Hb; simpl; [eauto|].
  destruct (rect_bug_turn b Hb) as [-> Hb']. simpl. apply IH, Hb'.
Qed.

Lemma two_quarter_turns (b : Bug) :
  rect_bug b -> quarter_turns 2 b = rotate b 180.
Proof.
  intros Hb. destruct (rect_bug_turn b Hb) as [E1 Hb1].
  simpl. rewrite E1. simpl.
  destruct (rect_bug_turn _ Hb1) as [E2 _]. rewrite E2. simpl.
  destruct Hb as [(pdt & R & C & pcells & Hp & Hpr)
                  (mdt & MR & MC & mcells & Hm & Hmr)].
  rewrite rotate_180_flips. unfold hflip. rewrite Hp, Hm. simpl.
  rewrite (turn_cells_twice R C) by exact Hpr.
  rewrite (turn_cells_twice MR MC) by exact Hmr. reflexivity.
Qed.

Lemma rotate_180_twice (b : Bug) :
  rect_bug b -> (rotate b 180 ≫= fun b' => rotate b' 180) = Ok b.
Proof.
  intros [(pdt & R & C & pcells & Hp & Hpr) (mdt & MR & MC & mcells & Hm & Hmr)].
  rewrite rotate_180_flips. unfold hflip. rewrite Hp, Hm. simpl.
  rewrite rotate_180_flips. unfold hflip, vflip. simpl.
  rewrite !half_turn_twice. destruct b as [nm p m]. simpl in *. subst.
  reflexivity.
Qed.

Lemma four_quarter_turns (b : Bug) : rect_bug b -> quarter_turns 4 b = Ok b.
Proof.
  intros Hb. change 4%nat with (2 + 2)%nat. rewrite quarter_turns_add.
  rewrite (two_quarter_turns b Hb).
  destruct (quarter_turns_rect 2 b Hb) as (b' & E & Hb').
  rewrite (two_quarter_turns b Hb) in E. rewrite E.
  change (quarter_turns 2 b' = Ok b).
  rewrite (two_quarter_turns b' Hb').
  pose proof (rotate_180_twice b Hb) as H2. rewrite E in H2. exact H2.
Qed.

(** On a Bug with two-axis pattern and mask, [rotate] is a number of
    quarter turns. *)
Lemma rotate_quarter_turns (b : Bug) (angle : Z) :
  rect_bug b -> valid_angle (angle mod 360) = true ->
  rotate b angle = quarter_turns (Z.to_nat (angle mod 360 / 90)) b.
Proof.
  intros Hb Hv. rewrite rotate_reduced.
  apply valid_angle_cases in Hv as [E | [E | [E | E]]]; rewrite E.
  - reflexivity.
  - change (Z.to_nat (90 / 90)) with 1%nat. simpl.
    rewrite bind_ret_res, rotate_reduced. reflexivity.
  - change (Z.to_nat (180 / 90)) with 2%nat.
    rewrite (two_quarter_turns b Hb), rotate_reduced. reflexivity.
  - change (Z.to_nat (270 / 90)) with (2 + 1)%nat.
    rewrite quarter_turns_add, (two_quarter_turns b Hb).
    change (rotate_body b 270) with (rotate_body b (270 mod 360)).
    rewrite <- rotate_reduced, rotate_270_half_quarter.
    destruct (rotate b 180) as [b'|e]; simpl; [|reflexivity].
    rewrite bind_ret_res. reflexivity.
Qed.

Lemma quarter_turns_mod_4 (n : nat) (b : Bug) :
  rect_bug b -> quarter_turns n b = quarter_turns (n mod 4) b.
Proof.
  intros Hb. rewrite (Nat.div_mod_eq n 4) at 1.
  generalize (n mod 4)%nat as k. generalize (n / 4)%nat as q.
  induction q as [|q IH]; intros k.
  - rewrite Nat.mul_0_r. reflexivity.
  - replace (4 * S q + k)%nat with (4 + (4 * q + k))%nat by lia.
    rewrite quarter_turns_add, (four_quarter_turns b Hb). simpl. apply IH.
Qed.

(** X8.  Rotations compose by adding their angles: on a Bug with
    two-axis pattern and mask, [rotate(a)] followed by [rotate(a')]
    returns the same Bug as [rotate(a + a')], for all angles congruent
    to 0, 90, 180 or 270 modulo 360. *)
Theorem rotate_compose (b : Bug) (a a' : Z) :
  rect_bug b ->
  valid_angle (a mod 360) = true -> valid_angle (a' mod 360) = true ->
  (rotate b a ≫= fun b' => rotate b' a') = rotate b (a + a')
  /\ succeeds (rotate b (a + a')).
Proof.
  intros Hb Ha Ha'.
  assert (valid_angle ((a + a') mod 360) = true
          /\ Z.to_nat ((a + a') mod 360 / 90)
             = ((Z.to_nat (a mod 360 / 90) + Z.to_nat (a' mod 360 / 90))
                mod 4)%nat) as [Hs Hk].
  { rewrite Z.add_mod by lia.
    apply valid_angle_cases in Ha as [E | [E | [E | E]]];
      apply valid_angle_cases in Ha' as [E' | [E' | [E' | E']]];
      rewrite E, E'; split; reflexivity. }
  assert ((rotate b a ≫= fun b' => rotate b' a') = rotate b (a + a')) as E.
  { rewrite (rotate_quarter_turns b (a + a') Hb Hs), Hk.
    rewrite <- (quarter_turns_mod_4 _ b Hb), quarter_turns_add.
    rewrite (rotate_quarter_turns b a Hb Ha).
    destruct (quarter_turns_rect (Z.to_nat (a mod 360 / 90)) b Hb)
      as (b' & -> & Hb'). simpl.
    apply rotate_quarter_turns; assumption. }
  split; [exact E|].
  rewrite (rotate_quarter_turns b (a + a') Hb Hs).
  destruct (quarter_turns_rect (Z.to_nat ((a + a') mod 360 / 90)) b Hb)
    as (b' & -> & _). eexists; reflexivity.
Qed.

Lemma rect_bug_corner : rect_bug corner.
Proof.
  split; exists Int, 2%nat, 2%nat, corner_rows; split;
    (reflexivity || exact rect_corner).
Qed.

Lemma rotate_compose_witness :
  (rotate corner 270 ≫= fun b' => rotate b' 180) = rotate corner (270 + 180).
Proof.
  exact (proj1 (rotate_compose corner 270 180 rect_bug_corner
                  eq_refl eq_refl)).
Defined.

(** X9.  Four quarter turns return the receiver: on a Bug with two-axis
    pattern and mask, [rotate(90)] applied four times gives a Bug equal
    to the original, and applied twice it gives [rotate(180)]. *)
Theorem rotate_90_four_times (b : Bug) :
  rect_bug b ->
  (rotate b 90 ≫= fun b1 => rotate b1 90 ≫= fun b2 =>
   rotate b2 90 ≫= fun b3 => rotate b3 90) = Ok b
  /\ (rotate b 90 ≫= fun b1 => rotate b1 90) = rotate b 180.
Proof.
  intros Hb. split.
  - pose proof (four_quarter_turns b Hb) as E. simpl in E.
    rewrite <- E. destruct (rotate b 90) as [b1|]; simpl; [|reflexivity].
    destruct (rotate b1 90) as [b2|]; simpl; [|reflexivity].
    destruct (rotate b2 90) as [b3|]; simpl; [|reflexivity].
    rewrite bind_ret_res. reflexivity.
  - pose proof (two_quarter_turns b Hb) as E. simpl in E.
    rewrite <- E. destruct (rotate b 90) as [b1|]; simpl; [|reflexivity].
    rewrite bind_ret_res. reflexivity.
Qed.

Lemma rotate_90_four_times_witness :
  (rotate corner 90 ≫= fun b1 => rotate b1 90 ≫= fun b2 =>
   rotate b2 90 ≫= fun b3 => rotate b3 90) = Ok corner.
Proof. exact (proj1 (rotate_90_four_times corner rect_bug_corner)). Defined.

(** ** The values of the mask of [margin] *)

Lemma window_or_snoc src r c done p :
  window_or src r c (done ++ [p])
  = Z.lor (window_or src r c done) (shifted src r c p).
Proof. unfold window_or. rewrite foldl_app. reflexivity. Qed.

Lemma shifted_hit (R C : nat) src (r c k l : nat) (i j : Z) :
  rect R C src -> (k < R)%nat -> (l < C)%nat ->
  Z.of_nat r = i + Z.of_nat k -> Z.of_nat c = j + Z.of_nat l ->
  cell src k l = Some (shifted src r c (i, j)).
Proof.
  intros Hsrc Hk Hl Er Ec. unfold shifted. simpl.
  replace (Z.of_nat r - i) with (Z.of_nat k) by lia.
  replace (Z.of_nat c - j) with (Z.of_nat l) by lia.
  rewrite !(proj2 (Z.leb_le 0 _)) by lia. simpl. rewrite !Nat2Z.id.
  destruct (rect_cell_Some _ _ src k l Hsrc Hk Hl) as [s ->]. reflexivity.
Qed.

Lemma shifted_miss (R C : nat) src (r c : nat) (i j : Z) :
  rect R C src -> 0 <= i -> 0 <= j ->
  index_of r (prog i 1 R) = None \/ index_of c (prog j 1 C) = None ->
  shifted src r c (i, j) = 0.
Proof.
  intros Hsrc Hi Hj Hnone. unfold shifted. simpl.
  destruct (Z.leb_spec 0 (Z.of_nat r - i)); simpl; [|reflexivity].
  destruct (Z.leb_spec 0 (Z.of_nat c - j)); simpl; [|reflexivity].
  destruct (cell src _ _) as [s|] eqn:Hs; [|reflexivity]. exfalso.
  destruct (rect_cell_lt _ _ _ _ _ _ Hsrc Hs) as [Hr Hc].
  assert (index_of r (prog i 1 R) = Some (Z.to_nat (Z.of_nat r - i))) as Er
    by (apply index_of_window; lia).
  assert (index_of c (prog j 1 C) = Some (Z.to_nat (Z.of_nat c - j))) as Ec
    by (apply index_of_window; lia).
  destruct Hnone; congruence.
Qed.

Lemma ior_step_exact (R C : nat) src done arr (m i j : Z) :
  rect R C src -> 0 <= i <= 2 * m -> 0 <= j <= 2 * m ->
  exact_on m src R C done arr ->
  exists arr',
    ior_slice arr
      (i, Z.of_nat R + m * 2 - (m * 2 + 1) + 1 + i, 1)
      (j, Z.of_nat C + m * 2 - (m * 2 + 1) + 1 + j, 1)
      (Arr2 Int R C src) = Ok arr'
    /\ exact_on m src R C (done ++ [(i, j)]) arr'.
Proof.
  intros Hsrc Hi Hj (cells & -> & Hrect & Hinv).
  eexists. split.
  - unfold ior_slice.
    apply update_slice_Ok with (ridx := prog i 1 R) (cidx := prog j 1 C).
    + rewrite Z2Nat.id by lia.
      replace (Z.of_nat R + m * 2 - (m * 2 + 1) + 1 + i)
        with (Z.of_nat R + i) by lia.
      replace (Z.of_nat R + m * 2) with (Z.of_nat R + 2 * m) by lia.
      apply slice_indices_window. lia.
    + rewrite Z2Nat.id by lia.
      replace (Z.of_nat C + m * 2 - (m * 2 + 1) + 1 + j)
        with (Z.of_nat C + j) by lia.
      replace (Z.of_nat C + m * 2) with (Z.of_nat C + 2 * m) by lia.
      apply slice_indices_window. lia.
    + reflexivity.
    + apply length_prog.
    + apply length_prog.
  - eexists. split; [reflexivity|].
    split; [apply rect_update_rows; exact Hrect|].
    intros r c v' Hv'. rewrite cell_update_rows in Hv'.
    destruct (cell cells r c) as [v|] eqn:Hv; [|discriminate].
    simpl in Hv'. injection Hv' as <-. rewrite window_or_snoc.
    rewrite <- (Hinv r c v Hv).
    destruct (index_of r (prog i 1 R)) as [k|] eqn:Ek;
      [destruct (index_of c (prog j 1 C)) as [l|] eqn:El|].
    + apply index_of_window in Ek as [Hk Er]; [|lia].
      apply index_of_window in El as [Hl Ec]; [|lia].
      rewrite !bcast_lt by assumption.
      rewrite (shifted_hit R C src r c k l i j) by assumption. reflexivity.
    + rewrite (shifted_miss R C) by (auto || lia).
      rewrite Z.lor_0_r. reflexivity.
    + rewrite (shifted_miss R C) by (auto || lia).
      rewrite Z.lor_0_r. reflexivity.
Qed.

Lemma margin_exact (b : Bug) (R C : nat) (cells : list (list Z))
    (m : Z) :
  patch b = Arr2 Int R C cells -> rect R C cells -> 0 <= m ->
  exists mcells,
    margin b m
    = Ok (mkBug (name b) (patch b)
            (Arr2 Int (Z.to_nat (Z.of_nat R + m * 2))
                      (Z.to_nat (Z.of_nat C + m * 2)) mcells))
    /\ rect (Z.to_nat (Z.of_nat R + m * 2)) (Z.to_nat (Z.of_nat C + m * 2))
            mcells
    /\ forall r c : nat,
         Z.of_nat r < Z.of_nat R + m * 2 ->
         Z.of_nat c < Z.of_nat C + m * 2 ->
         cell mcells r c
         = Some (window_or cells r c
                   (pairs (xrange (m * 2 + 1)) (xrange (m * 2 + 1)))).
Proof.
  intros Hp Hsrc Hm.
  destruct (nested_inv (exact_on m cells R C)
              (fun i j mask' =>
                 ior_slice mask'
                   (i, Z.of_nat R + m * 2 - (m * 2 + 1) + 1 + i, 1)
                   (j, Z.of_nat C + m * 2 - (m * 2 + 1) + 1 + j, 1)
                   (patch b))
              (xrange (m * 2 + 1)) (xrange (m * 2 + 1)))
    with (s := Arr2 Int (Z.to_nat (Z.of_nat R + m * 2))
                 (Z.to_nat (Z.of_nat C + m * 2))
                 (replicate (Z.to_nat (Z.of_nat R + m * 2))
                    (replicate (Z.to_nat (Z.of_nat C + m * 2)) 0)))
    as (arr & Hloop & mcells & -> & Hrect & Hinv).
  - intros pre i j s Hi Hj Hs. apply elem_of_xrange in Hi, Hj.
    rewrite Hp. apply ior_step_exact; (assumption || lia).
  - eexists. split; [reflexivity|]. split; [apply rect_replicate|].
    intros r c v Hv. apply cell_replicate in Hv as ->. reflexivity.
  - exists mcells. split; [|split; [exact Hrect|]].
    + unfold margin. rewrite Hp. simpl.
      rewrite !(proj2 (Z.ltb_ge _ 0)) by lia. simpl.
      rewrite Hp in Hloop. rewrite Hloop. reflexivity.
    + intros r c Hr Hc.
      destruct (rect_cell_Some _ _ mcells r c Hrect) as [v Hv]; [lia|lia|].
      rewrite Hv. f_equal. apply Hinv. exact Hv.
Qed.

(** X10.  The mask that [margin(m)] builds, [m >= 0], holds in each
    cell (r, c) the bitwise or of the pattern cells (r - i, c - j) over
    all offsets 0 <= i, j <= 2m that fall inside the pattern. *)
Theorem margin_values (b : Bug) (R C : nat) (cells : list (list Z))
    (m : Z) :
  patch b = Arr2 Int R C cells -> rect R C cells -> 0 <= m ->
  exists b' dt (MR MC : nat) mcells,
    margin b m = Ok b' /\ mask b' = Arr2 dt MR MC mcells
    /\ shape (mask b') = Sh2 (Z.of_nat R + 2 * m) (Z.of_nat C + 2 * m)
    /\ forall r c : nat,
         Z.of_nat r < Z.of_nat R + 2 * m ->
         Z.of_nat c < Z.of_nat C + 2 * m ->
         cell mcells r c
         = Some (window_or cells r c
                   (pairs (xrange (2 * m + 1)) (xrange (2 * m + 1)))).
Proof.
  intros Hp Hsrc Hm.
  destruct (margin_exact b R C cells m Hp Hsrc Hm)
    as (mcells & E & _ & Hcells).
  eexists _, _, _, _, mcells. split; [exact E|]. split; [reflexivity|].
  split; [simpl; f_equal; lia|].
  intros r c Hr Hc. replace (2 * m + 1) with (m * 2 + 1) by lia.
  apply Hcells; lia.
Qed.

Lemma margin_values_witness :
  exists b' dt (MR MC : nat) mcells,
    margin corner 1 = Ok b' /\ mask b' = Arr2 dt MR MC mcells
    /\ cell mcells 1 1 = Some 1.
Proof.
  destruct (margin_values corner 2 2 corner_rows 1 eq_refl rect_corner
              ltac:(lia)) as (b' & dt & MR & MC & mcells & E & Em & _ & Hc).
  exists b', dt, MR, MC, mcells. split; [exact E|]. split; [exact Em|].
  exact (Hc 1%nat 1%nat ltac:(lia) ltac:(lia)).
Defined.

(** X11.  [margin(0)] returns the same Bug as [fit_mask()]: on a Bug
    whose pattern is a two-axis integer array, the mask of [margin(0)]
    equals the pattern, value for value. *)
Theorem margin_0_fits (b : Bug) (R C : nat) (cells : list (list Z)) :
  patch b = Arr2 Int R C cells -> rect R C cells ->
  margin b 0 = fit_mask b
  /\ margin b 0 = Ok (mkBug (name b) (patch b) (patch b)).
Proof.
  intros Hp Hsrc.
  assert (margin b 0 = Ok (mkBug (name b) (patch b) (patch b))) as E.
  { destruct (margin_exact b R C cells 0 Hp Hsrc ltac:(lia))
      as (mcells & E & Hrect & Hc).
    rewrite E. do 2 f_equal. rewrite Hp.
    replace (Z.to_nat (Z.of_nat R + 0 * 2)) with R in * by lia.
    replace (Z.to_nat (Z.of_nat C + 0 * 2)) with C in * by lia.
    f_equal. apply (cells_ext R C); [exact Hrect | exact Hsrc |].
    intros r c Hr Hc'. rewrite Hc by lia.
    change (pairs (xrange (0 * 2 + 1)) (xrange (0 * 2 + 1)))
      with [(0, 0)].
    unfold window_or. cbn [foldl]. rewrite Z.lor_0_l. symmetry.
    apply (shifted_hit R C); (assumption || lia). }
  split; [|exact E]. rewrite E. reflexivity.
Qed.

Lemma margin_0_fits_witness : margin corner 0 = fit_mask corner.
Proof.
  exact (proj1 (margin_0_fits corner 2 2 corner_rows eq_refl rect_corner)).
Defined.

Lemma shifted_binary src (r c : nat) p :
  binary src -> shifted src r c p = 0 \/ shifted src r c p = 1.
Proof.
  intros Hb. unfold shifted.
  destruct ((0 <=? _) && (0 <=? _)); [|left; reflexivity].
  destruct (cell src _ _) as [s|] eqn:Hs; [|left; reflexivity].
  exact (Hb _ _ _ Hs).
Qed.

Lemma window_or_binary src (r c : nat) offsets :
  binary src ->
  window_or src r c offsets = 0 \/ window_or src r c offsets = 1.
Proof.
  intros Hb. induction offsets as [|p offsets IH] using rev_ind.
  - left. reflexivity.
  - rewrite window_or_snoc.
    destruct IH as [-> | ->];
      destruct (shifted_binary src r c p Hb) as [-> | ->];
      [left | right | right | right]; reflexivity.
Qed.

Lemma binary_corner : binary corner_rows.
Proof.
  intros r c v Hv.
  destruct r as [|[|r]]; destruct c as [|[|c]]; simpl in Hv;
    try discriminate; injection Hv as <-; auto.
Qed.

(** X12.  The mask of [margin(m)], [m >= 0], covers the pattern with
    its margin: a non-zero pattern cell (r, c) makes the whole block of
    mask cells (r + i, c + j), 0 <= i, j <= 2m, non-zero; and a pattern
    without a non-zero cell gets a mask of zeros. *)
Theorem margin_covers_pattern (b : Bug) (R C : nat)
    (cells : list (list Z)) (m : Z) :
  patch b = Arr2 Int R C cells -> rect R C cells -> 0 <= m ->
  exists b' dt (MR MC : nat) mcells,
    margin b m = Ok b' /\ mask b' = Arr2 dt MR MC mcells
    /\ (forall (r c : nat) (v : Z) (i j : nat),
          cell cells r c = Some v -> v <> 0 ->
          Z.of_nat i <= 2 * m -> Z.of_nat j <= 2 * m ->
          exists u, cell mcells (r + i) (c + j) = Some u /\ u <> 0)
    /\ ((forall r c v, cell cells r c = Some v -> v = 0) ->
        forall r c u, cell mcells r c = Some u -> u = 0).
Proof.
  intros Hp Hsrc Hm.
  destruct (margin_nonneg b R C cells m Hp Hsrc Hm)
    as (mcells & E & Hrect & _ & Hocc).
  eexists _, _, _, _, mcells. split; [exact E|]. split; [reflexivity|].
  split.
  - intros r c v i j Hv Hne Hi Hj.
    destruct (rect_cell_lt _ _ _ _ _ _ Hsrc Hv) as [Hr Hc].
    destruct (rect_cell_Some _ _ mcells (r + i) (c + j) Hrect)
      as [u Hu]; [lia | lia |].
    exists u. split; [exact Hu|]. apply (Hocc _ _ _ Hu).
    exists r, c, v. split; [exact Hv|]. split; [exact Hne|]. lia.
  - intros Hzero r c u Hu.
    destruct (decide (u = 0)) as [-> | Hne]; [reflexivity|].
    apply (Hocc _ _ _ Hu) in Hne as (pr & pc & pv & Hpv & Hpne & _).
    exfalso. apply Hpne. exact (Hzero _ _ _ Hpv).
Qed.

Lemma margin_covers_pattern_witness :
  exists b', margin corner 2 = Ok b'.
Proof.
  destruct (margin_covers_pattern corner 2 2 corner_rows 2 eq_refl
              rect_corner ltac:(lia)) as (b' & _ & _ & _ & _ & E & _).
  exists b'. exact E.
Defined.

Lemma bind_Ok_inv {A B} (m : res A) (f : A -> res B) (b : B) :
  m ≫= f = Ok b -> exists a, m = Ok a /\ f a = Ok b.
Proof. destruct m as [a|e]; [eauto | discriminate]. Qed.

Lemma margin_keeps (b b' : Bug) (k : Z) :
  margin b k = Ok b' -> name b' = name b /\ patch b' = patch b.
Proof.
  unfold margin. intros E.
  do 4 (apply bind_Ok_inv in E; destruct E as (? & _ & E);
        cbv beta zeta in E).
  injection E as <-. split; reflexivity.
Qed.

Lemma total_mask_keeps (b b' : Bug) :
  total_mask b = Ok b' -> name b' = name b /\ patch b' = patch b.
Proof.
  unfold total_mask. intros E.
  apply bind_Ok_inv in E; destruct E as (? & _ & E).
  injection E as <-. split; reflexivity.
Qed.

(** X13.  [margin] never reads the old mask: after any of [margin(k)],
    [fit_mask()] or [total_mask()], [margin(m)] returns what it returns
    on the receiver itself. *)
Theorem margin_replaces_mask (b b' : Bug) (m : Z) :
  (exists k, margin b k = Ok b') \/ fit_mask b = Ok b'
  \/ total_mask b = Ok b' ->
  margin b' m = margin b m.
Proof.
  assert (name b' = name b /\ patch b' = patch b -> margin b' m = margin b m)
    as Hsame.
  { intros [Hn Hq]. unfold margin. rewrite Hn, Hq. reflexivity. }
  intros [[k E] | [E | E]]; apply Hsame.
  - eapply margin_keeps, E.
  - unfold fit_mask in E. injection E as <-. split; reflexivity.
  - apply total_mask_keeps, E.
Qed.

Lemma margin_replaces_mask_witness :
  margin (mkBug "corner" (patch corner) (Arr2 Int 0 0 [])) 1
  = margin corner 1.
Proof.
  apply margin_replaces_mask. left. exists (-1). vm_compute. reflexivity.
Defined.

(** ** total_mask and fit_mask *)

(** X14.  [total_mask()] never fails: it returns a Bug with the
    receiver's name and pattern whose mask has the shape of the old mask
    and element type float, holds 1 in every cell, and is left unchanged
    by a second [total_mask()]. *)
Theorem total_mask_fills (b : Bug) :
  exists b',
    total_mask b = Ok b'
    /\ name b' = name b /\ patch b' = patch b
    /\ shape (mask b') = shape (mask b)
    /\ dtype_of (mask b') = Some Float
    /\ (forall dt (R C : nat) mcells,
          mask b' = Arr2 dt R C mcells ->
          rect R C mcells
          /\ forall r c : nat, (r < R)%nat -> (c < C)%nat ->
               cell mcells r c = Some 1)
    /\ (forall dt items, mask b' = Arr1 dt items -> Forall (eq 1) items)
    /\ total_mask b' = Ok b'.
Proof.
  destruct b as [nm p m]. unfold total_mask, numpy_ones, numpy_full. simpl.
  destruct m as [dt items | items | dt R C cells]; simpl.
  - rewrite (proj2 (Z.ltb_ge _ 0)) by lia. simpl. rewrite Nat2Z.id.
    eexists. split; [reflexivity|]. simpl.
    rewrite length_replicate, (proj2 (Z.ltb_ge _ 0)) by lia. simpl.
    rewrite Nat2Z.id. repeat split; try discriminate.
    intros dt' items' [= <- <-]. apply Forall_replicate. reflexivity.
  - rewrite (proj2 (Z.ltb_ge _ 0)) by lia. simpl. rewrite Nat2Z.id.
    eexists. split; [reflexivity|]. simpl.
    rewrite length_replicate, (proj2 (Z.ltb_ge _ 0)) by lia. simpl.
    rewrite Nat2Z.id. repeat split; try discriminate.
    intros dt' items' [= <- <-]. apply Forall_replicate. reflexivity.
  - rewrite !(proj2 (Z.ltb_ge _ 0)) by lia. simpl. rewrite !Nat2Z.id.
    eexists. split; [reflexivity|]. simpl.
    rewrite !(proj2 (Z.ltb_ge _ 0)) by lia. simpl. rewrite !Nat2Z.id.
    split; [reflexivity|]. split; [reflexivity|]. split; [reflexivity|].
    split; [reflexivity|]. split; [|split; [discriminate | reflexivity]].
    intros dt' R' C' mcells [= <- <- <- <-].
    split; [apply rect_replicate|]. intros r c Hr Hc. unfold cell.
    rewrite lookup_replicate_2 by exact Hr.
    apply lookup_replicate_2. exact Hc.
Qed.

(** ** Bugs with a one-axis pattern *)

(** X15.  A Bug whose pattern has one axis, as the empty list and a
    ragged nested list give, still has a height and can be flipped
    vertically, but [hflip], [margin], [w] and the rotations by 90, 180
    and 270 raise an IndexError, and [scale] raises a ValueError. *)
Theorem one_axis_pattern (b : Bug) :
  one_axis (patch b) ->
  succeeds (h b) /\ succeeds (vflip b) /\ rotate b 0 = Ok b
  /\ w b = Err IndexError
  /\ hflip b = Err IndexError
  /\ (forall m, margin b m = Err IndexError)
  /\ (forall x y, scale b (VInt x) (Some (VInt y)) = Err ValueError)
  /\ rotate b 90 = Err IndexError
  /\ rotate b 180 = Err IndexError
  /\ rotate b 270 = Err IndexError.
Proof.
  intros H1. destruct b as [nm p m].
  destruct p as [dt items | items | dt R C cells]; [| |contradiction];
    (split; [eexists; reflexivity|]);
    (split; [eexists; reflexivity|]);
    (split; [rewrite rotate_reduced; reflexivity|]);
    (split; [reflexivity|]);
    (split; [reflexivity|]);
    (split; [intros; reflexivity|]);
    (split; [intros; reflexivity|]);
    (split; [rewrite rotate_reduced; reflexivity|]);
    (split; [rewrite rotate_reduced; reflexivity|]);
    rewrite rotate_reduced; reflexivity.
Qed.

Lemma one_axis_pattern_witness :
  hflip (mkBug "ragged" (ArrObj ragged_rows) (ArrObj ragged_rows))
  = Err IndexError.
Proof.
  destruct (one_axis_pattern
              (mkBug "ragged" (ArrObj ragged_rows) (ArrObj ragged_rows)) I)
    as (_ & _ & _ & _ & E & _).
  exact E.
Defined.

(** ** Element types and margin *)

(** X16.  [margin] cannot follow [scale]: on a Bug with two-axis pattern
    and mask, [scale] with positive factors succeeds, and [margin(m)],
    [m >= 0], on its result raises a TypeError. *)
Theorem margin_after_scale_raises (b : Bug) (x y m : Z) :
  rect_bug b -> 0 < x -> 0 < y -> 0 <= m ->
  succeeds (scale b (VInt x) (Some (VInt y)))
  /\ (scale b (VInt x) (Some (VInt y)) ≫= fun b' => margin b' m)
     = Err TypeError.
Proof.
  intros [(pdt & R & C & pcells & Hp & Hpr) (mdt & MR & MC & mcells & Hm & Hmr)]
         Hx Hy Hm0.
  destruct (scale_positive b pdt R C pcells mdt MR MC mcells x y
              Hp Hpr Hm Hmr Hx Hy) as (p' & m' & E & _).
  rewrite E. split; [eexists; reflexivity|]. simpl.
  eapply margin_float_pattern; [reflexivity | exact Hm0].
Qed.

Lemma margin_after_scale_raises_witness :
  (scale corner (VInt 2) (Some (VInt 2)) ≫= fun b' => margin b' 1)
  = Err TypeError.
Proof.
  exact (proj2 (margin_after_scale_raises corner 2 2 1 rect_bug_corner
                  ltac:(lia) ltac:(lia) ltac:(lia))).
Defined.

(** ** scale composed with itself and with the flips *)

Lemma Arr2_ext dt (R C : nat) a (R' C' : nat) b :
  R = R' -> C = C' -> rect R C a -> rect R' C' b ->
  (forall r c : nat, (r < R)%nat -> (c < C)%nat -> cell a r c = cell b r c) ->
  Arr2 dt R C a = Arr2 dt R' C' b.
Proof.
  intros <- <- Ha Hb Hcells. f_equal. apply (cells_ext R C); assumption.
Qed.

Lemma as_float64_exact (sdt : dtype) (R C : nat) (cells : list (list Z)) :
  rect R C cells -> sdt = Float \/ float64_exact cells ->
  as_float64 sdt cells = cells.
Proof.
  intros Hrect Hsame.
  apply (cells_ext R C); [apply rect_as_float64, Hrect | exact Hrect |].
  intros r c Hr Hc. rewrite cell_as_float64.
  destruct (cell cells r c) as [v|] eqn:Hv; [|reflexivity].
  simpl. f_equal. apply stored_small.
  destruct Hsame as [-> | Hex]; [left; reflexivity | right; eapply Hex, Hv].
Qed.

Lemma as_float64_flip_cols (sdt : dtype) (cells : list (list Z)) :
  as_float64 sdt (reverse <$> cells) = reverse <$> as_float64 sdt cells.
Proof.
  unfold as_float64. rewrite <- !list_fmap_compose.
  apply list_fmap_ext. intros _ row _. simpl. apply fmap_reverse.
Qed.

Lemma as_float64_flip_rows (sdt : dtype) (cells : list (list Z)) :
  as_float64 sdt (reverse cells) = reverse (as_float64 sdt cells).
Proof. unfold as_float64. apply fmap_reverse. Qed.

Lemma div_index (r : nat) (y : Z) (R : nat) :
  0 < y -> Z.of_nat r < Z.of_nat R * y ->
  Z.of_nat (Z.to_nat (Z.of_nat r / y)) = Z.of_nat r / y
  /\ Z.of_nat r / y < Z.of_nat R.
Proof.
  intros Hy Hr.
  assert (0 <= Z.of_nat r / y) by (apply Z.div_pos; lia).
  split; [lia|]. apply Z.div_lt_upper_bound; lia.
Qed.

(** Upsampling by (x1, y1) and then by (x2, y2) fills the same cells as
    upsampling by (x1 * x2, y1 * y2). *)
Lemma upsample_twice (R C : nat) (src p1 p2 p3 : list (list Z))
    (x1 y1 x2 y2 : Z) :
  0 < x1 -> 0 < y1 -> 0 < x2 -> 0 < y2 ->
  rect (Z.to_nat (Z.of_nat R * y1)) (Z.to_nat (Z.of_nat C * x1)) p1 ->
  (forall r c : nat,
     Z.of_nat r < Z.of_nat R * y1 -> Z.of_nat c < Z.of_nat C * x1 ->
     cell p1 r c = cell src (Z.to_nat (Z.of_nat r / y1))
                            (Z.to_nat (Z.of_nat c / x1))) ->
  rect (Z.to_nat (Z.of_nat (Z.to_nat (Z.of_nat R * y1)) * y2))
       (Z.to_nat (Z.of_nat (Z.to_nat (Z.of_nat C * x1)) * x2)) p2 ->
  (forall r c : nat,
     Z.of_nat r < Z.of_nat (Z.to_nat (Z.of_nat R * y1)) * y2 ->
     Z.of_nat c < Z.of_nat (Z.to_nat (Z.of_nat C * x1)) * x2 ->
     cell p2 r c = cell p1 (Z.to_nat (Z.of_nat r / y2))
                           (Z.to_nat (Z.of_nat c / x2))) ->
  rect (Z.to_nat (Z.of_nat R * (y1 * y2)))
       (Z.to_nat (Z.of_nat C * (x1 * x2))) p3 ->
  (forall r c : nat,
     Z.of_nat r < Z.of_nat R * (y1 * y2) ->
     Z.of_nat c < Z.of_nat C * (x1 * x2) ->
     cell p3 r c = cell src (Z.to_nat (Z.of_nat r / (y1 * y2)))
                            (Z.to_nat (Z.of_nat c / (x1 * x2)))) ->
  Arr2 Float (Z.to_nat (Z.of_nat (Z.to_nat (Z.of_nat R * y1)) * y2))
       (Z.to_nat (Z.of_nat (Z.to_nat (Z.of_nat C * x1)) * x2)) p2
  = Arr2 Float (Z.to_nat (Z.of_nat R * (y1 * y2)))
         (Z.to_nat (Z.of_nat C * (x1 * x2))) p3.
Proof.
  intros Hx1 Hy1 Hx2 Hy2 Hr1 Hc1 Hr2 Hc2 Hr3 Hc3.
  assert (Z.of_nat (Z.to_nat (Z.of_nat R * y1)) = Z.of_nat R * y1) as ER
    by (apply Z2Nat.id; nia).
  assert (Z.of_nat (Z.to_nat (Z.of_nat C * x1)) = Z.of_nat C * x1) as EC
    by (apply Z2Nat.id; nia).
  apply Arr2_ext; try assumption.
  - rewrite ER. f_equal. lia.
  - rewrite EC. f_equal. lia.
  - intros r c Hr Hc. rewrite ER in Hr. rewrite EC in Hc.
    assert (Z.of_nat r < Z.of_nat R * y1 * y2) as Hr' by nia.
    assert (Z.of_nat c < Z.of_nat C * x1 * x2) as Hc' by nia.
    destruct (div_index r y2 (Z.to_nat (Z.of_nat R * y1)) Hy2
                ltac:(rewrite ER; exact Hr')) as [Er2 Hlr2].
    destruct (div_index c x2 (Z.to_nat (Z.of_nat C * x1)) Hx2
                ltac:(rewrite EC; exact Hc')) as [Ec2 Hlc2].
    rewrite Hc2 by (rewrite ?ER, ?EC; assumption).
    rewrite Hc1 by lia. rewrite Hc3 by lia.
    rewrite Er2, Ec2, !Z.div_div by lia.
    rewrite (Z.mul_comm y2 y1), (Z.mul_comm x2 x1). reflexivity.
Qed.

(** X17.  Scaling twice is scaling by the products: on a Bug with
    two-axis pattern and mask, [scale(x1, y1)] followed by
    [scale(x2, y2)] returns the same Bug as [scale(x1 * x2, y1 * y2)],
    for positive factors. *)
Theorem scale_compose (b : Bug) (x1 y1 x2 y2 : Z) :
  rect_bug b -> 0 < x1 -> 0 < y1 -> 0 < x2 -> 0 < y2 ->
  (scale b (VInt x1) (Some (VInt y1))
     ≫= fun b' => scale b' (VInt x2) (Some (VInt y2)))
  = scale b (VInt (x1 * x2)) (Some (VInt (y1 * y2)))
  /\ succeeds (scale b (VInt (x1 * x2)) (Some (VInt (y1 * y2)))).
Proof.
  intros [(pdt & R & C & pcells & Hp & Hpr) (mdt & MR & MC & mcells & Hm & Hmr)]
         Hx1 Hy1 Hx2 Hy2.
  destruct (scale_positive b pdt R C pcells mdt MR MC mcells x1 y1
              Hp Hpr Hm Hmr Hx1 Hy1)
    as (p1 & m1 & E1 & Hrp1 & Hrm1 & Hcp1 & Hcm1).
  destruct (scale_positive
              (mkBug (name b)
                 (Arr2 Float (Z.to_nat (Z.of_nat R * y1))
                    (Z.to_nat (Z.of_nat C * x1)) p1)
                 (Arr2 Float (Z.to_nat (Z.of_nat MR * y1))
                    (Z.to_nat (Z.of_nat MC * x1)) m1))
              Float _ _ p1 Float _ _ m1 x2 y2
              eq_refl Hrp1 eq_refl Hrm1 Hx2 Hy2)
    as (p2 & m2 & E2 & Hrp2 & Hrm2 & Hcp2 & Hcm2).
  rewrite as_float64_Float in Hcp2, Hcm2.
  destruct (scale_positive b pdt R C pcells mdt MR MC mcells
              (x1 * x2) (y1 * y2) Hp Hpr Hm Hmr ltac:(nia) ltac:(nia))
    as (p3 & m3 & E3 & Hrp3 & Hrm3 & Hcp3 & Hcm3).
  rewrite E1. cbn [mbind res_bind]. rewrite E2, E3.
  split; [|eexists; reflexivity]. simpl. f_equal. f_equal.
  - apply (upsample_twice R C (as_float64 pdt pcells) p1); assumption.
  - apply (upsample_twice MR MC (as_float64 mdt mcells) m1); assumption.
Qed.

Lemma scale_compose_witness :
  (scale corner (VInt 2) (Some (VInt 1))
     ≫= fun b' => scale b' (VInt 3) (Some (VInt 2)))
  = scale corner (VInt (2 * 3)) (Some (VInt (1 * 2))).
Proof.
  exact (proj1 (scale_compose corner 2 1 3 2 rect_bug_corner
                  ltac:(lia) ltac:(lia) ltac:(lia) ltac:(lia))).
Defined.

(** X18.  [scale(1)] keeps both shapes and returns every cell
    converted to float64: on a Bug with two-axis pattern and mask it
    returns the receiver's name with float arrays of the receiver's
    shapes, whose cells are the receiver's cells as float64; these are
    the receiver's cells themselves when the array is a float array
    already or holds no value above 2^53 in magnitude. *)
Theorem scale_1_keeps_cells (b : Bug) pdt (R C : nat) pcells mdt
    (MR MC : nat) mcells :
  patch b = Arr2 pdt R C pcells -> rect R C pcells ->
  mask b = Arr2 mdt MR MC mcells -> rect MR MC mcells ->
  scale b (VInt 1) None
  = Ok (mkBug (name b) (Arr2 Float R C (as_float64 pdt pcells))
          (Arr2 Float MR MC (as_float64 mdt mcells)))
  /\ (pdt = Float \/ float64_exact pcells -> as_float64 pdt pcells = pcells)
  /\ (mdt = Float \/ float64_exact mcells -> as_float64 mdt mcells = mcells).
Proof.
  intros Hp Hpr Hm Hmr.
  split;
    [|split; [apply (as_float64_exact pdt R C), Hpr
             | apply (as_float64_exact mdt MR MC), Hmr]].
  rewrite scale_default.
  destruct (scale_positive b pdt R C pcells mdt MR MC mcells 1 1
              Hp Hpr Hm Hmr ltac:(lia) ltac:(lia))
    as (p1 & m1 & E1 & Hrp1 & Hrm1 & Hcp1 & Hcm1).
  rewrite E1. f_equal. f_equal.
  - apply Arr2_ext;
      [lia | lia | exact Hrp1 | apply rect_as_float64, Hpr |].
    intros r c Hr Hc. rewrite Hcp1 by lia.
    rewrite !Z.div_1_r, !Nat2Z.id. reflexivity.
  - apply Arr2_ext;
      [lia | lia | exact Hrm1 | apply rect_as_float64, Hmr |].
    intros r c Hr Hc. rewrite Hcm1 by lia.
    rewrite !Z.div_1_r, !Nat2Z.id. reflexivity.
Qed.

Lemma scale_1_keeps_cells_witness :
  scale corner (VInt 1) None
  = Ok (mkBug "corner" (Arr2 Float 2 2 corner_rows)
          (Arr2 Float 2 2 corner_rows)).
Proof.
  exact (proj1 (scale_1_keeps_cells corner Int 2 2 corner_rows
                  Int 2 2 corner_rows
                  eq_refl rect_corner eq_refl rect_corner)).
Defined.

Lemma div_mirror (c : nat) (x : Z) (C : nat) :
  0 < x -> Z.of_nat c < Z.of_nat C * x ->
  Z.to_nat (Z.of_nat (Z.to_nat (Z.of_nat C * x) - S c) / x)
  = (C - S (Z.to_nat (Z.of_nat c / x)))%nat.
Proof.
  intros Hx Hc.
  destruct (div_index c x C Hx Hc) as [_ Hlt].
  assert (0 <= Z.of_nat c / x) by (apply Z.div_pos; lia).
  pose proof (Z.div_mod (Z.of_nat c) x ltac:(lia)) as Hdm.
  pose proof (Z.mod_pos_bound (Z.of_nat c) x Hx) as Hmod.
  assert (Z.of_nat (Z.to_nat (Z.of_nat C * x) - S c)
          = Z.of_nat C * x - 1 - Z.of_nat c) as -> by lia.
  assert ((Z.of_nat C * x - 1 - Z.of_nat c) / x
          = Z.of_nat C - 1 - Z.of_nat c / x) as ->.
  { symmetry.
    apply (Z.div_unique _ _ _ (x - 1 - Z.of_nat c mod x)); [lia | nia]. }
  lia.
Qed.

Lemma upsample_flip_cols (R C : nat) (src p q : list (list Z)) (x y : Z) :
  0 < x -> 0 < y -> rect R C src ->
  rect (Z.to_nat (Z.of_nat R * y)) (Z.to_nat (Z.of_nat C * x)) p ->
  (forall r c : nat,
     Z.of_nat r < Z.of_nat R * y -> Z.of_nat c < Z.of_nat C * x ->
     cell p r c = cell (reverse <$> src) (Z.to_nat (Z.of_nat r / y))
                       (Z.to_nat (Z.of_nat c / x))) ->
  rect (Z.to_nat (Z.of_nat R * y)) (Z.to_nat (Z.of_nat C * x)) q ->
  (forall r c : nat,
     Z.of_nat r < Z.of_nat R * y -> Z.of_nat c < Z.of_nat C * x ->
     cell q r c = cell src (Z.to_nat (Z.of_nat r / y))
                       (Z.to_nat (Z.of_nat c / x))) ->
  p = reverse <$> q.
Proof.
  intros Hx Hy Hsrc Hp Hcp Hq Hcq.
  apply (cells_ext _ _ _ _ Hp (rect_flip_cols _ _ _ Hq)).
  intros r c Hr Hc.
  destruct (div_index c x C Hx ltac:(nia)) as [Ec Hlc].
  rewrite Hcp by nia.
  rewrite (cell_flip_cols R C) by (assumption || lia).
  rewrite (cell_flip_cols _ _ q r c Hq Hc).
  rewrite Hcq by nia. rewrite div_mirror by nia. reflexivity.
Qed.

Lemma upsample_flip_rows (R C : nat) (src p q : list (list Z)) (x y : Z) :
  0 < x -> 0 < y -> rect R C src ->
  rect (Z.to_nat (Z.of_nat R * y)) (Z.to_nat (Z.of_nat C * x)) p ->
  (forall r c : nat,
     Z.of_nat r < Z.of_nat R * y -> Z.of_nat c < Z.of_nat C * x ->
     cell p r c = cell (reverse src) (Z.to_nat (Z.of_nat r / y))
                       (Z.to_nat (Z.of_nat c / x))) ->
  rect (Z.to_nat (Z.of_nat R * y)) (Z.to_nat (Z.of_nat C * x)) q ->
  (forall r c : nat,
     Z.of_nat r < Z.of_nat R * y -> Z.of_nat c < Z.of_nat C * x ->
     cell q r c = cell src (Z.to_nat (Z.of_nat r / y))
                       (Z.to_nat (Z.of_nat c / x))) ->
  p = reverse q.
Proof.
  intros Hx Hy Hsrc Hp Hcp Hq Hcq.
  apply (cells_ext _ _ _ _ Hp (rect_flip_rows _ _ _ Hq)).
  intros r c Hr Hc.
  destruct (div_index r y R Hy ltac:(nia)) as [Er Hlr].
  rewrite Hcp by nia.
  rewrite (cell_flip_rows R C) by (assumption || lia).
  rewrite (cell_flip_rows _ _ q r c Hq Hr).
  rewrite Hcq by nia. rewrite div_mirror by nia. reflexivity.
Qed.

Lemma hflip_arrays (b : Bug) pdt (R C : nat) pcells mdt (MR MC : nat) mcells :
  patch b = Arr2 pdt R C pcells -> mask b = Arr2 mdt MR MC mcells ->
  hflip b = Ok (mkBug (name b) (Arr2 pdt R C (reverse <$> pcells))
                  (Arr2 mdt MR MC (reverse <$> mcells))).
Proof. intros Hp Hm. unfold hflip. rewrite Hp, Hm. reflexivity. Qed.

Lemma vflip_arrays (b : Bug) pdt (R C : nat) pcells mdt (MR MC : nat) mcells :
  patch b = Arr2 pdt R C pcells -> mask b = Arr2 mdt MR MC mcells ->
  vflip b = Ok (mkBug (name b) (Arr2 pdt R C (reverse pcells))
                  (Arr2 mdt MR MC (reverse mcells))).
Proof. intros Hp Hm. unfold vflip. rewrite Hp, Hm. reflexivity. Qed.

(** X19.  Scaling commutes with the flips: on a Bug with two-axis
    pattern and mask and for positive factors, [hflip] then [scale]
    returns the same Bug as [scale] then [hflip], and likewise for
    [vflip]. *)
Theorem scale_commutes_with_flips (b : Bug) (x y : Z) :
  rect_bug b -> 0 < x -> 0 < y ->
  (hflip b ≫= fun b' => scale b' (VInt x) (Some (VInt y)))
  = (scale b (VInt x) (Some (VInt y)) ≫= hflip)
  /\ (vflip b ≫= fun b' => scale b' (VInt x) (Some (VInt y)))
     = (scale b (VInt x) (Some (VInt y)) ≫= vflip)
  /\ succeeds (scale b (VInt x) (Some (VInt y)) ≫= hflip)
  /\ succeeds (scale b (VInt x) (Some (VInt y)) ≫= vflip).
Proof.
  intros [(pdt & R & C & pcells & Hp & Hpr) (mdt & MR & MC & mcells & Hm & Hmr)]
         Hx Hy.
  destruct (scale_positive b pdt R C pcells mdt MR MC mcells x y
              Hp Hpr Hm Hmr Hx Hy)
    as (q & qm & E & Hrq & Hrqm & Hcq & Hcqm).
  rewrite E. cbn [mbind res_bind].
  rewrite (hflip_arrays b _ _ _ _ _ _ _ _ Hp Hm).
  rewrite (vflip_arrays b _ _ _ _ _ _ _ _ Hp Hm).
  rewrite (hflip_arrays (mkBug _ (Arr2 _ _ _ _) (Arr2 _ _ _ _))
             _ _ _ _ _ _ _ _ eq_refl eq_refl).
  rewrite (vflip_arrays (mkBug _ (Arr2 _ _ _ _) (Arr2 _ _ _ _))
             _ _ _ _ _ _ _ _ eq_refl eq_refl).
  cbn [mbind res_bind name].
  destruct (scale_positive
              (mkBug (name b) (Arr2 pdt R C (reverse <$> pcells))
                 (Arr2 mdt MR MC (reverse <$> mcells)))
              pdt R C _ mdt MR MC _ x y eq_refl
              (rect_flip_cols _ _ _ Hpr) eq_refl
              (rect_flip_cols _ _ _ Hmr) Hx Hy)
    as (p & pm & E' & Hrp & Hrpm & Hcp & Hcpm).
  rewrite as_float64_flip_cols in Hcp, Hcpm.
  destruct (scale_positive
              (mkBug (name b) (Arr2 pdt R C (reverse pcells))
                 (Arr2 mdt MR MC (reverse mcells)))
              pdt R C _ mdt MR MC _ x y eq_refl
              (rect_flip_rows _ _ _ Hpr) eq_refl
              (rect_flip_rows _ _ _ Hmr) Hx Hy)
    as (p2 & pm2 & E2 & Hrp2 & Hrpm2 & Hcp2 & Hcpm2).
  rewrite as_float64_flip_rows in Hcp2, Hcpm2.
  pose proof (rect_as_float64 pdt _ _ _ Hpr) as Hpr'.
  pose proof (rect_as_float64 mdt _ _ _ Hmr) as Hmr'.
  rewrite E', E2.
  split; [|split; [|split; eexists; reflexivity]].
  - rewrite (upsample_flip_cols R C (as_float64 pdt pcells) p q x y)
      by assumption.
    rewrite (upsample_flip_cols MR MC (as_float64 mdt mcells) pm qm x y)
      by assumption.
    reflexivity.
  - rewrite (upsample_flip_rows R C (as_float64 pdt pcells) p2 q x y)
      by assumption.
    rewrite (upsample_flip_rows MR MC (as_float64 mdt mcells) pm2 qm x y)
      by assumption.
    reflexivity.
Qed.

Lemma scale_commutes_with_flips_witness :
  (hflip corner ≫= fun b' => scale b' (VInt 2) (Some (VInt 3)))
  = (scale corner (VInt 2) (Some (VInt 3)) ≫= hflip).
Proof.
  exact (proj1 (scale_commutes_with_flips corner 2 3 rect_bug_corner
                  ltac:(lia) ltac:(lia))).
Defined.

(** X20.  Scaling multiplies the margins: on a Bug whose pattern is a
    two-axis integer array, [margin(m)], [m >= 0], followed by
    [scale(x, y)] with positive factors gives a Bug with
    [marginh = m * y] and [marginw = m * x]. *)
Theorem scale_multiplies_margins (b : Bug) (R C : nat)
    (cells : list (list Z)) (m x y : Z) :
  patch b = Arr2 Int R C cells -> rect R C cells ->
  0 <= m -> 0 < x -> 0 < y ->
  exists b',
    (margin b m ≫= fun b1 => scale b1 (VInt x) (Some (VInt y))) = Ok b'
    /\ marginh b' = Ok (m * y) /\ marginw b' = Ok (m * x).
Proof.
  intros Hp Hsrc Hm Hx Hy.
  destruct (margin_nonneg b R C cells m Hp Hsrc Hm)
    as (mcells & E & Hrect & _).
  rewrite E. cbn [mbind res_bind].
  destruct (scale_positive
              (mkBug (name b) (patch b)
                 (Arr2 Int (Z.to_nat (Z.of_nat R + m * 2))
                    (Z.to_nat (Z.of_nat C + m * 2)) mcells))
              Int R C cells Int _ _ mcells x y
              Hp Hsrc eq_refl Hrect Hx Hy) as (p' & m' & E' & _).
  rewrite E'. eexists. split; [reflexivity|].
  unfold marginh, marginw, mh, mw, h, w. simpl.
  rewrite !Z2Nat.id by nia.
  replace ((Z.of_nat R + m * 2) * y - Z.of_nat R * y) with (m * y * 2)
    by lia.
  replace ((Z.of_nat C + m * 2) * x - Z.of_nat C * x) with (m * x * 2)
    by lia.
  rewrite !Z.div_mul by lia. split; reflexivity.
Qed.

Lemma scale_multiplies_margins_witness :
  exists b',
    (margin corner 1 ≫= fun b1 => scale b1 (VInt 2) (Some (VInt 3))) = Ok b'
    /\ marginh b' = Ok (1 * 3) /\ marginw b' = Ok (1 * 2).
Proof.
  exact (scale_multiplies_margins corner 2 2 corner_rows 1 2 3 eq_refl
           rect_corner ltac:(lia) ltac:(lia) ltac:(lia)).
Defined.

(** X21.  A zero factor empties the Bug instead of failing: on a Bug
    with two-axis pattern and mask, [scale(x, y)] with non-negative
    factors of which one is 0 returns a Bug of the same name whose
    pattern and mask have the shapes (R*y, C*x) and (MR*y, MC*x) and
    hold no cell. *)
Theorem scale_zero_empties (b : Bug) pdt (R C : nat) pcells mdt
    (MR MC : nat) mcells (x y : Z) :
  patch b = Arr2 pdt R C pcells -> mask b = Arr2 mdt MR MC mcells ->
  0 <= x -> 0 <= y -> x = 0 \/ y = 0 ->
  exists p' m',
    scale b (VInt x) (Some (VInt y))
    = Ok (mkBug (name b)
            (Arr2 Float (Z.to_nat (Z.of_nat R * y))
                        (Z.to_nat (Z.of_nat C * x)) p')
            (Arr2 Float (Z.to_nat (Z.of_nat MR * y))
                        (Z.to_nat (Z.of_nat MC * x)) m'))
    /\ (forall r c, cell p' r c = None)
    /\ (forall r c, cell m' r c = None).
Proof.
  intros Hp Hm Hx Hy Hzero. unfold scale. simpl. rewrite Hp, Hm. simpl.
  unfold numpy_zeros, numpy_full.
  rewrite !(proj2 (Z.ltb_ge _ 0)) by nia. simpl.
  rewrite scale_loops_skipped by lia. simpl.
  eexists _, _. split; [reflexivity|].
  assert (forall (n k : nat) (r c : nat),
            (n = 0 \/ k = 0)%nat ->
            cell (replicate n (replicate k 0)) r c = None) as Hempty.
  { intros n k r c Hnk. unfold cell.
    destruct (replicate n (replicate k 0) !! r) as [row|] eqn:E;
      [|reflexivity].
    apply lookup_replicate in E as [-> Hr].
    apply lookup_replicate_None. lia. }
  split; intros r c; apply Hempty; nia.
Qed.

Lemma scale_zero_empties_witness :
  exists p' m',
    scale corner (VInt 0) (Some (VInt 3))
    = Ok (mkBug "corner" (Arr2 Float 6 0 p') (Arr2 Float 6 0 m')).
Proof.
  destruct (scale_zero_empties corner Int 2 2 corner_rows Int 2 2 corner_rows
              0 3 eq_refl eq_refl ltac:(lia) ltac:(lia) ltac:(lia))
    as (p' & m' & E & _).
  exists p', m'. exact E.
Defined.

(** ** Names *)

Lemma hflip_keeps_name (b b' : Bug) : hflip b = Ok b' -> name b' = name b.
Proof.
  unfold hflip. intros E.
  do 2 (apply bind_Ok_inv in E; destruct E as (? & _ & E)).
  injection E as <-. reflexivity.
Qed.

Lemma vflip_keeps_name (b b' : Bug) : vflip b = Ok b' -> name b' = name b.
Proof. unfold vflip. intros E. injection E as <-. reflexivity. Qed.

Lemma rotate_keeps_name (b : Bug) (angle : Z) (b' : Bug) :
  rotate b angle = Ok b' -> name b' = name b.
Proof.
  revert b'. funelim (rotate b angle); intros b' E; try discriminate.
  - injection E as <-. reflexivity.
  - simpl in E. apply hflip_keeps_name in E. exact E.
  - match goal with
    | IH : forall b', rotate _ _ = Ok b' -> _ |- _ => rewrite (IH _ E)
    end.
    match goal with
    | E1 : hflip _ = Ok ?b1, E2 : vflip ?b1 = Ok _ |- _ =>
        rewrite (vflip_keeps_name _ _ E2), (hflip_keeps_name _ _ E1)
    end.
    reflexivity.
Qed.

Lemma scale_keeps_name (b : Bug) (x : pyval) (y : option pyval) (b' : Bug) :
  scale b x y = Ok b' -> name b' = name b.
Proof.
  unfold scale. intros E.
  destruct x as [x|]; [|discriminate].
  destruct (default (VInt x) y) as [y'|]; [|discriminate].
  apply bind_Ok_inv in E; destruct E as ([? ?] & _ & E).
  apply bind_Ok_inv in E; destruct E as ([? ?] & _ & E).
  do 2 (apply bind_Ok_inv in E; destruct E as (? & _ & E)).
  apply bind_Ok_inv in E; destruct E as ([? ?] & _ & E).
  injection E as <-. reflexivity.
Qed.

(** X22.  No transform renames a Bug: whatever [hflip], [vflip],
    [rotate], [scale], [margin], [total_mask] or [fit_mask] returns has
    the receiver's name, for every Bug and all arguments; and the last
    three return the receiver's pattern as well. *)
Theorem transforms_keep_name (b b' : Bug) :
  (hflip b = Ok b' -> name b' = name b)
  /\ (vflip b = Ok b' -> name b' = name b)
  /\ (forall angle, rotate b angle = Ok b' -> name b' = name b)
  /\ (forall x y, scale b x y = Ok b' -> name b' = name b)
  /\ (forall m, margin b m = Ok b' ->
        name b' = name b /\ patch b' = patch b)
  /\ (total_mask b = Ok b' -> name b' = name b /\ patch b' = patch b)
  /\ (fit_mask b = Ok b' -> name b' = name b /\ patch b' = patch b).
Proof.
  split; [apply hflip_keeps_name|].
  split; [apply vflip_keeps_name|].
  split; [intros angle; apply rotate_keeps_name|].
  split; [intros x y; apply scale_keeps_name|].
  split; [intros m; apply margin_keeps|].
  split; [apply total_mask_keeps|].
  unfold fit_mask. intros E. injection E as <-. split; reflexivity.
Qed.

Lemma transforms_keep_name_witness :
  name (mkBug "corner" (Arr2 Int 2 2 [[0; 1]; [0; 0]])
              (Arr2 Int 2 2 [[0; 1]; [0; 0]])) = name corner.
Proof.
  destruct (transforms_keep_name corner
              (mkBug "corner" (Arr2 Int 2 2 [[0; 1]; [0; 0]])
                     (Arr2 Int 2 2 [[0; 1]; [0; 0]])))
    as (_ & _ & Hrot & _).
  apply (Hrot 90). vm_compute. reflexivity.
Defined.

(** ** The data model is kept *)

Lemma grids_corner : grids corner.
Proof.
  split; exists Int, 2%nat, 2%nat, corner_rows;
    (split; [reflexivity|]); (split; [exact rect_corner|]);
    intros r c v Hv; destruct (binary_corner r c v Hv) as [-> | ->]; lia.
Qed.

(** X23.  Every transform keeps the data model: on a Bug whose
    pattern and mask are two-axis arrays without negative values, what
    [hflip], [vflip], [rotate], [scale] (positive factors), [margin]
    (integer pattern, [m >= 0]), [total_mask] and [fit_mask] return has
    again a two-axis pattern and mask, with rows as long as the shape
    says and no negative value. *)
Theorem transforms_keep_data_model (b : Bug) :
  grids b ->
  (forall b', hflip b = Ok b' -> grids b')
  /\ (forall b', vflip b = Ok b' -> grids b')
  /\ (forall angle b', rotate b angle = Ok b' -> grids b')
  /\ (forall x y b', 0 < x -> 0 < y ->
        scale b (VInt x) (Some (VInt y)) = Ok b' -> grids b')
  /\ (forall m b', dtype_of (patch b) = Some Int -> 0 <= m ->
        margin b m = Ok b' -> grids b')
  /\ (forall b', total_mask b = Ok b' -> grids b')
  /\ (forall b', fit_mask b = Ok b' -> grids b').
Proof.
  intros Hb.
  split; [intros b'; apply hflip_grids, Hb|].
  split; [intros b'; apply vflip_grids, Hb|].
  split; [intros angle b'; apply rotate_grids, Hb|].
  split; [intros x y b'; apply scale_grids, Hb|].
  split; [intros m b'; apply margin_grids, Hb|].
  split; [intros b'; apply total_mask_grids, Hb|].
  intros b'. apply fit_mask_grids, Hb.
Qed.

Lemma transforms_keep_data_model_witness :
  exists b', rotate corner 270 = Ok b' /\ grids b'.
Proof.
  destruct (transforms_keep_data_model corner grids_corner)
    as (_ & _ & Hrot & _).
  eexists. split; [vm_compute; reflexivity|].
  apply (Hrot 270). vm_compute. reflexivity.
Defined.

(** ** Rendering *)

Lemma string_length_append (s1 s2 : string) :
  String.length (String.append s1 s2)
  = (String.length s1 + String.length s2)%nat.
Proof. induction s1 as [|a s1 IH]; simpl; [reflexivity | rewrite IH; reflexivity]. Qed.

Lemma concat_cons (sep x y : string) (l : list string) :
  String.concat sep (x :: y :: l)
  = String.append x (String.append sep (String.concat sep (y :: l))).
Proof. reflexivity. Qed.

Lemma concat_length (sep : string) (L : nat) (l : list string) :
  Forall (fun s => String.length s = L) l ->
  String.length (String.concat sep l)
  = (length l * L + (length l - 1) * String.length sep)%nat.
Proof.
  induction l as [|x [|y l] IH]; intros Hl.
  - reflexivity.
  - inversion Hl; subst. simpl. rewrite !Nat.add_0_r. reflexivity.
  - inversion Hl as [|? ? Hx Hl']; subst. rewrite concat_cons.
    rewrite !string_length_append, (IH Hl'). simpl length. nia.
Qed.

Lemma concat_get (sep : string) (L : nat) (l : list string) (r k : nat)
    (line : string) :
  Forall (fun s => String.length s = L) l ->
  l !! r = Some line -> (k < L)%nat ->
  String.get (r * (L + String.length sep) + k) (String.concat sep l)
  = String.get k line.
Proof.
  revert r. induction l as [|x [|y l] IH]; intros r Hl Hr Hk.
  - discriminate.
  - destruct r as [|r]; [|discriminate]. injection Hr as ->. reflexivity.
  - inversion Hl as [|? ? Hx Hl']; subst. rewrite concat_cons.
    destruct r as [|r].
    + injection Hr as ->. simpl. symmetry. apply String.append_correct1. lia.
    + simpl in Hr. rewrite <- (IH r Hl' Hr Hk).
      rewrite (String.append_correct2 sep (String.concat sep (y :: l))
                 (r * (String.length x + String.length sep) + k)).
      rewrite (String.append_correct2 x
                 (String.append sep (String.concat sep (y :: l)))
                 (r * (String.length x + String.length sep) + k
                  + String.length sep)).
      f_equal. nia.
Qed.

Lemma pixel_length (v : Z) : String.length (pixel v) = 1%nat.
Proof. unfold pixel. destruct (v =? 0); reflexivity. Qed.

Lemma render_row_length (row : list Z) :
  String.length (render_row row) = (2 * length row - 1)%nat.
Proof.
  unfold render_row. rewrite (concat_length _ 1).
  - rewrite length_fmap. simpl. lia.
  - apply Forall_fmap, Forall_forall. intros v _. apply pixel_length.
Qed.

Lemma render_row_get (row : list Z) (c : nat) (v : Z) :
  row !! c = Some v ->
  String.get (2 * c) (render_row row) = String.get 0 (pixel v).
Proof.
  intros Hc. unfold render_row.
  rewrite <- (concat_get " " 1 (pixel <$> row) c 0 (pixel v)).
  - f_equal. simpl. lia.
  - apply Forall_fmap, Forall_forall. intros u _. apply pixel_length.
  - rewrite list_lookup_fmap, Hc. reflexivity.
  - lia.
Qed.

(** X24.  [str(bug)] can be read back: for a pattern of shape (R, C)
    the result is the name, a line feed, and the R lines joined by line
    feeds, a line being the marks of a row joined by blanks.  Its
    length is len(name) + 1 when R = 0, len(name) + R when R > 0 and
    C = 0, and len(name) + 1 + R * (2C - 1) + (R - 1) when R > 0 and
    C > 0; the character at position len(name) + 1 + r * 2C + 2c is the
    mark of the cell (r, c), ['x'] when the cell is non-zero and a
    blank when it is zero. *)
Theorem str_reads_back (b : Bug) dt (R C : nat) (cells : list (list Z)) :
  patch b = Arr2 dt R C cells -> rect R C cells ->
  exists s,
    Bug_str b = Ok s
    /\ (R = 0%nat ->
        Z.of_nat (String.length s) = Z.of_nat (String.length (name b)) + 1)
    /\ ((0 < R)%nat -> C = 0%nat ->
        Z.of_nat (String.length s)
        = Z.of_nat (String.length (name b)) + Z.of_nat R)
    /\ ((0 < R)%nat -> (0 < C)%nat ->
        Z.of_nat (String.length s)
        = Z.of_nat (String.length (name b)) + 1
          + Z.of_nat R * (2 * Z.of_nat C - 1) + (Z.of_nat R - 1))
    /\ (forall (r c : nat) (v : Z),
          cell cells r c = Some v ->
          String.get (String.length (name b) + 1 + r * (2 * C) + 2 * c) s
          = String.get 0 (pixel v))
    /\ (forall v, pixel v = "x" <-> v <> 0)
    /\ (forall v, pixel v = " " <-> v = 0).
Proof.
  intros Hp [Hlen Hrows]. unfold Bug_str. rewrite Hp.
  eexists. split; [reflexivity|].
  assert (Forall (fun s => String.length s = (2 * C - 1)%nat)
            (render_row <$> cells)) as Hlines.
  { apply Forall_fmap. eapply Forall_impl; [exact Hrows|].
    intros row Hrow. simpl. rewrite render_row_length, Hrow. reflexivity. }
  assert (String.length
            (String.append (name b)
               (String.append newline
                  (String.concat newline (render_row <$> cells))))
          = (String.length (name b) + 1 + R * (2 * C - 1) + (R - 1))%nat)
    as Hsize.
  { rewrite !string_length_append, (concat_length _ _ _ Hlines).
    rewrite length_fmap, Hlen. simpl. lia. }
  split; [|split; [|split; [|split; [|split]]]].
  - intros ->. rewrite Hsize. simpl. lia.
  - intros HR ->. rewrite Hsize. simpl. rewrite Nat.mul_0_r. lia.
  - intros HR HC. rewrite Hsize.
    rewrite !Nat2Z.inj_add, Nat2Z.inj_mul, !Nat2Z.inj_sub by lia.
    rewrite Nat2Z.inj_mul. simpl. lia.
  - intros r c v Hv. unfold cell in Hv.
    destruct (cells !! r) as [row|] eqn:Hr; [|discriminate].
    rewrite Forall_lookup in Hrows. pose proof (Hrows _ _ Hr) as Hrow.
    pose proof (lookup_lt_Some _ _ _ Hv) as Hc. rewrite Hrow in Hc.
    rewrite <- (render_row_get row c v Hv).
    rewrite <- (concat_get newline (2 * C - 1) (render_row <$> cells)
                  r (2 * c) (render_row row) Hlines).
    + rewrite (String.append_correct2 newline
                 (String.concat newline (render_row <$> cells))
                 (r * (2 * C - 1 + String.length newline) + 2 * c)).
      rewrite (String.append_correct2 (name b)
                 (String.append newline
                    (String.concat newline (render_row <$> cells)))
                 (r * (2 * C - 1 + String.length newline) + 2 * c
                  + String.length newline)).
      f_equal. simpl. nia.
    + rewrite list_lookup_fmap, Hr. reflexivity.
    + lia.
  - intros v. unfold pixel. destruct (Z.eqb_spec v 0); split; intros H;
      (discriminate || lia || reflexivity || contradiction).
  - intros v. unfold pixel. destruct (Z.eqb_spec v 0); split; intros H;
      (discriminate || lia || reflexivity || contradiction).
Qed.

Lemma str_reads_back_witness :
  exists s, Bug_str corner = Ok s
            /\ Z.of_nat (String.length s) = 6 + 1 + 2 * (2 * 2 - 1) + (2 - 1).
Proof.
  destruct (str_reads_back corner Int 2 2 corner_rows eq_refl rect_corner)
    as (s & E & _ & _ & Hl & _).
  exists s. split; [exact E | exact (Hl ltac:(lia) ltac:(lia))].
Defined.

(** ** margin and the flips *)

Lemma margin_binary_cells (b : Bug) (R C : nat) (cells : list (list Z))
    (m : Z) :
  patch b = Arr2 Int R C cells -> rect R C cells -> binary cells ->
  0 <= m ->
  exists mcells,
    margin b m
    = Ok (mkBug (name b) (patch b)
            (Arr2 Int (Z.to_nat (Z.of_nat R + m * 2))
                      (Z.to_nat (Z.of_nat C + m * 2)) mcells))
    /\ rect (Z.to_nat (Z.of_nat R + m * 2)) (Z.to_nat (Z.of_nat C + m * 2))
            mcells
    /\ forall r c : nat,
         (r < Z.to_nat (Z.of_nat R + m * 2))%nat ->
         (c < Z.to_nat (Z.of_nat C + m * 2))%nat ->
         (cell mcells r c = Some 0 \/ cell mcells r c = Some 1)
         /\ (cell mcells r c = Some 1 <-> near m cells r c).
Proof.
  intros Hp Hsrc Hbin Hm.
  destruct (margin_exact b R C cells m Hp Hsrc Hm)
    as (mcells & E & Hrect & Hv).
  destruct (margin_nonneg b R C cells m Hp Hsrc Hm)
    as (mcells' & E' & _ & _ & Hocc).
  rewrite E in E'. injection E' as <-.
  exists mcells. split; [exact E|]. split; [exact Hrect|].
  intros r c Hr Hc.
  destruct (rect_cell_Some _ _ mcells r c Hrect Hr Hc) as [v Hcv].
  assert (v = 0 \/ v = 1) as Hv01.
  { pose proof Hcv as Hcv'. rewrite Hv in Hcv' by lia.
    injection Hcv' as <-. apply window_or_binary, Hbin. }
  pose proof (Hocc _ _ _ Hcv) as Hiff. rewrite Hcv.
  split; [destruct Hv01 as [-> | ->]; auto|]. split.
  - intros [= ->]. destruct (proj1 Hiff ltac:(lia))
      as (pr & pc & pv & Hpv & Hne & Hd).
    exists pr, pc. split; [|exact Hd].
    destruct (Hbin _ _ _ Hpv) as [-> | ->]; [contradiction | exact Hpv].
  - intros (pr & pc & Hpv & Hd).
    assert (v <> 0) as Hne.
    { apply Hiff. exists pr, pc, 1. split; [exact Hpv|]. split; [lia|exact Hd]. }
    destruct Hv01 as [-> | ->]; [contradiction | reflexivity].
Qed.

(** X25.  A pattern of zeros and ones gets a mask of zeros and ones:
    after [margin(m)], [m >= 0], a mask cell is 1 when a pattern cell
    equal to 1 lies within Chebyshev distance m of its centred
    position, and 0 otherwise. *)
Theorem margin_binary (b : Bug) (R C : nat) (cells : list (list Z))
    (m : Z) :
  patch b = Arr2 Int R C cells -> rect R C cells -> binary cells ->
  0 <= m ->
  exists b' dt (MR MC : nat) mcells,
    margin b m = Ok b' /\ mask b' = Arr2 dt MR MC mcells
    /\ binary mcells
    /\ forall r c : nat,
         Z.of_nat r < Z.of_nat R + 2 * m ->
         Z.of_nat c < Z.of_nat C + 2 * m ->
         (cell mcells r c = Some 1 <->
          exists pr pc : nat,
            cell cells pr pc = Some 1
            /\ Z.max (Z.abs (Z.of_nat r - m - Z.of_nat pr))
                     (Z.abs (Z.of_nat c - m - Z.of_nat pc)) <= m)
         /\ (cell mcells r c = Some 0 \/ cell mcells r c = Some 1).
Proof.
  intros Hp Hsrc Hbin Hm.
  destruct (margin_binary_cells b R C cells m Hp Hsrc Hbin Hm)
    as (mcells & E & Hrect & Hcells).
  eexists _, _, _, _, mcells. split; [exact E|]. split; [reflexivity|].
  split.
  - intros r c v Hv. destruct (rect_cell_lt _ _ _ _ _ _ Hrect Hv) as [Hr Hc].
    destruct (Hcells r c Hr Hc) as [[H0 | H1] _]; rewrite Hv in *;
      [left | right]; congruence.
  - intros r c Hr Hc. destruct (Hcells r c ltac:(lia) ltac:(lia)) as [H01 Hiff].
    split; [exact Hiff | exact H01].
Qed.

Lemma margin_binary_witness :
  exists b', margin corner 1 = Ok b'.
Proof.
  destruct (margin_binary corner 2 2 corner_rows 1 eq_refl rect_corner
              binary_corner ltac:(lia)) as (b' & _ & _ & _ & _ & E & _).
  exists b'. exact E.
Defined.

Lemma binary_cell_eq (a b : option Z) :
  a = Some 0 \/ a = Some 1 -> b = Some 0 \/ b = Some 1 ->
  (a = Some 1 <-> b = Some 1) -> a = b.
Proof.
  intros [-> | ->] [-> | ->] [H1 H2]; try reflexivity.
  - apply H2. reflexivity.
  - symmetry. apply H1. reflexivity.
Qed.

Lemma binary_flip_cols (R C : nat) (cells : list (list Z)) :
  rect R C cells -> binary cells -> binary (reverse <$> cells).
Proof.
  intros Hrect Hb r c v Hv.
  destruct (rect_cell_lt _ _ _ _ _ _ (rect_flip_cols _ _ _ Hrect) Hv)
    as [_ Hc].
  rewrite (cell_flip_cols R C) in Hv by assumption. exact (Hb _ _ _ Hv).
Qed.

Lemma binary_flip_rows (R C : nat) (cells : list (list Z)) :
  rect R C cells -> binary cells -> binary (reverse cells).
Proof.
  intros Hrect Hb r c v Hv.
  destruct (rect_cell_lt _ _ _ _ _ _ (rect_flip_rows _ _ _ Hrect) Hv)
    as [Hr _].
  rewrite (cell_flip_rows R C) in Hv by assumption. exact (Hb _ _ _ Hv).
Qed.

Lemma near_flip_cols (R C : nat) (cells : list (list Z)) (m : Z) (r c : nat) :
  rect R C cells -> 0 <= m -> (c < Z.to_nat (Z.of_nat C + m * 2))%nat ->
  near m (reverse <$> cells) r c
  <-> near m cells r (Z.to_nat (Z.of_nat C + m * 2) - S c).
Proof.
  intros Hrect Hm Hc. split; intros (pr & pc & Hp & Hd).
  - destruct (rect_cell_lt _ _ _ _ _ _ (rect_flip_cols _ _ _ Hrect) Hp)
      as [_ Hpc].
    rewrite (cell_flip_cols R C) in Hp by assumption.
    exists pr, (C - S pc)%nat. split; [exact Hp | lia].
  - destruct (rect_cell_lt _ _ _ _ _ _ Hrect Hp) as [_ Hpc].
    exists pr, (C - S pc)%nat. split; [|lia].
    rewrite (cell_flip_cols R C) by (assumption || lia).
    replace (C - S (C - S pc))%nat with pc by lia. exact Hp.
Qed.

Lemma near_flip_rows (R C : nat) (cells : list (list Z)) (m : Z) (r c : nat) :
  rect R C cells -> 0 <= m -> (r < Z.to_nat (Z.of_nat R + m * 2))%nat ->
  near m (reverse cells) r c
  <-> near m cells (Z.to_nat (Z.of_nat R + m * 2) - S r) c.
Proof.
  intros Hrect Hm Hr. split; intros (pr & pc & Hp & Hd).
  - destruct (rect_cell_lt _ _ _ _ _ _ (rect_flip_rows _ _ _ Hrect) Hp)
      as [Hpr _].
    rewrite (cell_flip_rows R C) in Hp by assumption.
    exists (R - S pr)%nat, pc. split; [exact Hp | lia].
  - destruct (rect_cell_lt _ _ _ _ _ _ Hrect Hp) as [Hpr _].
    exists (R - S pr)%nat, pc. split; [|lia].
    rewrite (cell_flip_rows R C) by (assumption || lia).
    replace (R - S (R - S pr))%nat with pr by lia. exact Hp.
Qed.

(** X26.  The margin of a flipped Bug is the flipped margin: on a Bug
    with a two-axis pattern of zeros and ones and a two-axis mask,
    [hflip] then [margin(m)], [m >= 0], returns the same Bug as
    [margin(m)] then [hflip], and likewise for [vflip]. *)
Theorem margin_commutes_with_flips (b : Bug) (R C : nat)
    (cells : list (list Z)) mdt (MR MC : nat) (mcells : list (list Z))
    (m : Z) :
  patch b = Arr2 Int R C cells -> rect R C cells -> binary cells ->
  mask b = Arr2 mdt MR MC mcells -> 0 <= m ->
  (hflip b ≫= fun b' => margin b' m) = (margin b m ≫= hflip)
  /\ (vflip b ≫= fun b' => margin b' m) = (margin b m ≫= vflip)
  /\ succeeds (margin b m ≫= hflip) /\ succeeds (margin b m ≫= vflip).
Proof.
  intros Hp Hsrc Hbin Hmask Hm.
  destruct (margin_binary_cells b R C cells m Hp Hsrc Hbin Hm)
    as (mk & E & Hrk & Hk).
  rewrite E. cbn [mbind res_bind]. rewrite Hp.
  rewrite (hflip_arrays b _ _ _ _ _ _ _ _ Hp Hmask).
  rewrite (vflip_arrays b _ _ _ _ _ _ _ _ Hp Hmask).
  rewrite (hflip_arrays (mkBug _ (Arr2 _ _ _ _) (Arr2 _ _ _ _))
             _ _ _ _ _ _ _ _ eq_refl eq_refl).
  rewrite (vflip_arrays (mkBug _ (Arr2 _ _ _ _) (Arr2 _ _ _ _))
             _ _ _ _ _ _ _ _ eq_refl eq_refl).
  cbn [mbind res_bind name].
  destruct (margin_binary_cells
              (mkBug (name b) (Arr2 Int R C (reverse <$> cells))
                 (Arr2 mdt MR MC (reverse <$> mcells)))
              R C (reverse <$> cells) m eq_refl
              (rect_flip_cols _ _ _ Hsrc)
              (binary_flip_cols _ _ _ Hsrc Hbin) Hm)
    as (mh' & Eh & Hrh & Hh).
  destruct (margin_binary_cells
              (mkBug (name b) (Arr2 Int R C (reverse cells))
                 (Arr2 mdt MR MC (reverse mcells)))
              R C (reverse cells) m eq_refl
              (rect_flip_rows _ _ _ Hsrc)
              (binary_flip_rows _ _ _ Hsrc Hbin) Hm)
    as (mv' & Ev & Hrv & Hv).
  rewrite Eh, Ev. cbn [name patch].
  split; [|split; [|split; eexists; reflexivity]].
  - do 3 f_equal.
    apply (cells_ext _ _ _ _ Hrh (rect_flip_cols _ _ _ Hrk)).
    intros r c Hr Hc.
    rewrite (cell_flip_cols _ _ mk r c Hrk Hc).
    destruct (Hh r c Hr Hc) as [H01 Hiff].
    destruct (Hk r (Z.to_nat (Z.of_nat C + m * 2) - S c)%nat Hr ltac:(lia))
      as [H01' Hiff'].
    apply binary_cell_eq; [exact H01 | exact H01' |].
    rewrite Hiff, Hiff'. apply (near_flip_cols R C); assumption.
  - do 3 f_equal.
    apply (cells_ext _ _ _ _ Hrv (rect_flip_rows _ _ _ Hrk)).
    intros r c Hr Hc.
    rewrite (cell_flip_rows _ _ mk r c Hrk Hr).
    destruct (Hv r c Hr Hc) as [H01 Hiff].
    destruct (Hk (Z.to_nat (Z.of_nat R + m * 2) - S r)%nat c ltac:(lia) Hc)
      as [H01' Hiff'].
    apply binary_cell_eq; [exact H01 | exact H01' |].
    rewrite Hiff, Hiff'. apply (near_flip_rows R C); assumption.
Qed.

Lemma margin_commutes_with_flips_witness :
  (hflip corner ≫= fun b' => margin b' 1) = (margin corner 1 ≫= hflip).
Proof.
  exact (proj1 (margin_commutes_with_flips corner 2 2 corner_rows
                  Int 2 2 corner_rows 1 eq_refl rect_corner binary_corner
                  eq_refl ltac:(lia))).
Defined.
